(** * A shallow embedding of [controller.py] (class [ShardHandler])

    The program splits a text into shards stored as files [data/<id>.txt],
    keeps an index of character ranges in [mapping.json], and maintains
    replica files [data/<id>-<level>.txt].

    Modelling decisions, each one local to the place it is used:
    - a Python [str] is a list of characters ([text]);
    - Python integers are [Z] where they can be negative or are subtracted
      ([count], offsets), and [nat] for shard numbers and replica levels,
      which the program only ever produces by counting up from 0 or 1;
    - the JSON key [str(num)] of the mapping is represented by [num] itself;
      file names are the real strings, built with the decimal printer [str];
    - a dict is an association list in insertion order, because
      [load_data_from_shards] iterates over [mapping.keys()];
    - the disk is the persisted mapping ([mapping.json]), the set of regular
      files of the working directory, and the directory [data/] (absent, or a
      finite map from file names to contents);
    - every method is a function in the monad [M]: it takes the world (object
      fields and disk) and returns an outcome together with the new world;
      an exception keeps the writes made before it;
    - the recursion of [sync_replication] takes fuel, one unit per level of
      recursion, and so does the probing loop of the replication methods;
      [OutOfFuel] is the outcome when it runs out, and the lemmas on them
      show that enough fuel always exists (the interpreter's own recursion
      limit is not modelled);
    - [data/] holds regular files only; a file holds the characters that
      were written to it, and reading it in text mode translates the line
      endings ([universal_newlines]); the line separator of the system is
      the line feed, so writing translates nothing;
    - [print] calls are dropped: nothing reads the console. *)

From Stdlib Require Import ZArith Ascii String DecimalString DecimalNat Lia.
From stdpp Require Import gmap strings list sorting.

Open Scope Z_scope.

Abbreviation text := (list ascii).

(** ** Python values used by the program *)

(** [str(n)] for a non-negative integer. *)
Definition str (n : nat) : string := NilEmpty.string_of_uint (Nat.to_uint n).

(** [len(s)] *)
Definition len (s : text) : Z := Z.of_nat (length s).

(** Index normalisation of a slice bound: negative bounds count from the end,
    and every bound is clamped to [0, len]. *)
Definition norm_index (n i : Z) : Z :=
  if i <? 0 then Z.max 0 (i + n) else Z.min i n.

(** [s[lo:hi]] *)
Definition py_slice (s : text) (lo hi : Z) : text :=
  let l := norm_index (len s) lo in
  let h := norm_index (len s) hi in
  take (Z.to_nat (h - l)) (drop (Z.to_nat l) s).

(** [s[lo:]] *)
Definition py_slice_from (s : text) (lo : Z) : text :=
  drop (Z.to_nat (norm_index (len s) lo)) s.

(** [range(count)] *)
Definition py_range (count : Z) : list Z :=
  Z.of_nat <$> seq 0 (Z.to_nat count).

(** [enumerate(l)] *)
Fixpoint enumerate_from {A} (n : nat) (l : list A) : list (nat * A) :=
  match l with
  | [] => []
  | x :: l' => (n, x) :: enumerate_from (S n) l'
  end.
Definition enumerate {A} (l : list A) : list (nat * A) := enumerate_from 0 l.

(** [l[-1] += x] on a non-empty list of strings. *)
Fixpoint append_to_last (l : list text) (x : text) : list text :=
  match l with
  | [] => []
  | [y] => [y ++ x]
  | y :: l' => y :: append_to_last l' x
  end.

(** The exceptions the modelled statements can raise. *)
Inductive exn :=
  | ZeroDivisionError
  | FileNotFoundError
  | ValueError
  | IndexError
  | KeyError.

(** ** The index *)

(** One entry [{'start': _, 'end': _}] of the mapping. *)
Record Range := mkRange { start : Z; end_ : Z }.

(** The mapping: key [n] stands for the JSON key [str(n)]. *)
Abbreviation Mapping := (list (nat * Range)).

(** [mapping.update({str(num): r})]: an existing key keeps its position. *)
Fixpoint update (m : Mapping) (num : nat) (r : Range) : Mapping :=
  match m with
  | [] => [(num, r)]
  | (k, v) :: m' =>
      if decide (k = num) then (num, r) :: m' else (k, v) :: update m' num r
  end.

(** [mapping.get(str(num))] and [mapping[str(num)]] *)
Fixpoint get (m : Mapping) (num : nat) : option Range :=
  match m with
  | [] => None
  | (k, v) :: m' => if decide (k = num) then Some v else get m' num
  end.

(** [[int(z) for z in list(mapping.keys())]] *)
Definition int_keys (m : Mapping) : list nat := m.*1.

(** ** The world: the object's fields and the disk *)

Record World := mkWorld {
  (* fields of the ShardHandler object *)
  mapping : Mapping;
  last_char_position : Z;
  rep_count : nat;
  (* the disk *)
  mapfile : option Mapping;          (* mapping.json, when it exists *)
  cwd : gset string;                 (* other regular files of the working directory *)
  data_dir : option (gmap string text)  (* the directory data/, when it exists *)
}.

Definition set_mapping (m : Mapping) (w : World) : World :=
  mkWorld m (last_char_position w) (rep_count w) (mapfile w) (cwd w) (data_dir w).
Definition set_last_char_position (p : Z) (w : World) : World :=
  mkWorld (mapping w) p (rep_count w) (mapfile w) (cwd w) (data_dir w).
Definition set_rep_count (r : nat) (w : World) : World :=
  mkWorld (mapping w) (last_char_position w) r (mapfile w) (cwd w) (data_dir w).
Definition set_mapfile (f : option Mapping) (w : World) : World :=
  mkWorld (mapping w) (last_char_position w) (rep_count w) f (cwd w) (data_dir w).
Definition set_data (d : option (gmap string text)) (w : World) : World :=
  mkWorld (mapping w) (last_char_position w) (rep_count w) (mapfile w) (cwd w) d.

(** ** The monad of methods *)

Inductive outcome (A : Type) :=
  | Ok (a : A)
  | Raise (e : exn)
  | OutOfFuel.
Arguments Ok {A} a.
Arguments Raise {A} e.
Arguments OutOfFuel {A}.

Definition M (A : Type) : Type := World → outcome A * World.

Definition ret {A} (a : A) : M A := λ w, (Ok a, w).
Definition raise {A} (e : exn) : M A := λ w, (Raise e, w).
Definition out_of_fuel {A} : M A := λ w, (OutOfFuel, w).
Definition bind {A B} (m : M A) (k : A → M B) : M B :=
  λ w, match m w with
       | (Ok a, w') => k a w'
       | (Raise e, w') => (Raise e, w')
       | (OutOfFuel, w') => (OutOfFuel, w')
       end.

Notation "'let*' x ':=' m 'in' k" := (bind m (λ x, k))
  (at level 10, x pattern, m at level 100, k at level 200).
Notation "m ';;;' k" := (bind m (λ _, k))
  (at level 100, k at level 200, right associativity).

Definition gets {A} (f : World → A) : M A := λ w, (Ok (f w), w).
Definition modify (f : World → World) : M unit := λ w, (Ok tt, f w).

(** [for x in l: body x] *)
Fixpoint for_each {A} (l : list A) (body : A → M unit) : M unit :=
  match l with
  | [] => ret tt
  | x :: l' => body x ;;; for_each l' body
  end.

(** [n] rounds of [body]; used for [while i <= max_files: ...; i += 1], whose
    counter [i] and bound [max_files] are locals that the body leaves alone. *)
Fixpoint repeat_n (n : nat) (body : M unit) : M unit :=
  match n with
  | O => ret tt
  | S n' => body ;;; repeat_n n' body
  end.

(** ** The disk *)

Definition primary_name (key : nat) : string := str key +:+ ".txt".
Definition replica_name (key level : nat) : string :=
  str key +:+ "-" +:+ str level +:+ ".txt".

(** [os.path.exists('data/' + name)] *)
Definition data_exists (name : string) : M bool :=
  gets (λ w, match data_dir w with
             | Some d => bool_decide (is_Some (d !! name))
             | None => false
             end).

(** The two line-ending characters. *)
Definition CR : ascii := ascii_of_nat 13.
Definition LF : ascii := ascii_of_nat 10.

(** What text-mode reading does to the stored characters (the default
    [newline=None] of [open]): a carriage return followed by a line feed, and
    a carriage return alone, both come back as one line feed. *)
Fixpoint universal_newlines (s : text) : text :=
  match s with
  | [] => []
  | c :: s' =>
      if Ascii.eqb c CR then
        match s' with
        | c' :: s'' =>
            if Ascii.eqb c' LF then LF :: universal_newlines s''
            else LF :: universal_newlines s'
        | [] => [LF]
        end
      else c :: universal_newlines s'
  end.

(** [open('data/' + name, 'r').read()]: the stored characters, with the
    line endings translated. *)
Definition data_read (name : string) : M text :=
  λ w, match data_dir w with
       | Some d => match d !! name with
                   | Some s => (Ok (universal_newlines s), w)
                   | None => (Raise FileNotFoundError, w)
                   end
       | None => (Raise FileNotFoundError, w)
       end.

(** [open('data/' + name, 'w').write(s)]: the characters are stored as they
    are (on a system whose line separator is the line feed, nothing is
    translated on output). *)
Definition data_write (name : string) (s : text) : M unit :=
  λ w, match data_dir w with
       | Some d => (Ok tt, set_data (Some (<[name := s]> d)) w)
       | None => (Raise FileNotFoundError, w)
       end.

(** [os.remove('data/' + name)] *)
Definition data_remove (name : string) : M unit :=
  λ w, match data_dir w with
       | Some d => match d !! name with
                   | Some _ => (Ok tt, set_data (Some (delete name d)) w)
                   | None => (Raise FileNotFoundError, w)
                   end
       | None => (Raise FileNotFoundError, w)
       end.

(** [if not os.path.exists("data"): os.mkdir("data")] *)
Definition ensure_data_dir : M unit :=
  modify (λ w, match data_dir w with
               | Some _ => w
               | None => set_data (Some ∅) w
               end).

(** [os.path.isfile(name)]: the name is looked up in the working directory,
    not in [data/]. The index is the one file of that directory kept apart
    from [cwd]. *)
Definition isfile (w : World) (name : string) : bool :=
  if decide (name = "mapping.json") then bool_decide (is_Some (mapfile w))
  else bool_decide (name ∈ cwd w).

(** [len([name for name in os.listdir('data/') if os.path.isfile(name)])] *)
Definition count_files : M nat :=
  λ w, match data_dir w with
       | Some d => (Ok (length (filter (λ name, isfile w name = true)
                                       (elements (dom d)))), w)
       | None => (Raise FileNotFoundError, w)
       end.

(** ** The methods of [ShardHandler] *)

(** [json.dump(self.mapping, m)] *)
Definition write_map : M unit :=
  modify (λ w, set_mapfile (Some (mapping w)) w).

(** [dict()] when the file is absent, else [json.load(m)]. *)
Definition load_map : M Mapping :=
  gets (λ w, default [] (mapfile w)).

Definition __init__ : M unit :=
  let* m := load_map in
  modify (set_mapping m) ;;;
  modify (set_last_char_position 0) ;;;
  modify (set_rep_count 1%nat).

Definition _reset_char_position : M unit :=
  modify (set_last_char_position 0).

Definition _write_shard (num : nat) (data : text) : M unit :=
  ensure_data_dir ;;;
  data_write (primary_name num) data ;;;
  (if decide (num = 0%nat) then _reset_char_position else ret tt) ;;;
  modify (λ w,
    let p := last_char_position w in
    set_mapping
      (update (mapping w) num
         {| start := if p =? 0 then p else p + 1;
            end_ := p + len data |}) w) ;;;
  modify (λ w, set_last_char_position (last_char_position w + len data) w).

Definition _generate_sharded_data (count : Z) (data : text) : M (list text) :=
  if count =? 0 then raise ZeroDivisionError
  else
    let splicenum := len data / count in
    let rem := len data mod count in
    let result :=
      (λ z, py_slice data (splicenum * z) (splicenum * (z + 1)))
        <$> py_range count in
    if 0 <? rem then
      match result with
      | [] => raise IndexError
      | _ => ret (append_to_last result (py_slice_from data (- rem)))
      end
    else ret result.

(** [for num, d in enumerate(spliced_data): self._write_shard(num, d)] *)
Definition write_shards (spliced_data : list text) : M unit :=
  for_each (enumerate spliced_data) (λ '(num, d), _write_shard num d).

Definition already_sharded : string :=
  "Cannot build shard setup -- sharding already exists.".

(** Returns [Some message] for the early [return "Cannot build ..."], and
    [None] when the method runs to its end. *)
Definition build_shards (count : Z) (data : text) : M (option string) :=
  let* m := gets mapping in
  if bool_decide (m ≠ []) then ret (Some already_sharded)
  else
    let* spliced_data := _generate_sharded_data count data in
    write_shards spliced_data ;;;
    write_map ;;;
    ret None.

Fixpoint read_shards (keys : list nat) : M (list text) :=
  match keys with
  | [] => ret []
  | db :: keys' =>
      let* s := data_read (primary_name db) in
      let* rest := read_shards keys' in
      ret (s :: rest)
  end.

Definition load_data_from_shards : M text :=
  let* keys := gets (λ w, int_keys (mapping w)) in
  let* result := read_shards keys in
  ret (concat result).

(** [keys = [int(z) for z in ...]; keys.sort()] *)
Definition sorted_keys (m : Mapping) : list nat :=
  merge_sort Nat.le (int_keys m).

(** [max(keys)] *)
Definition py_max (keys : list nat) : M nat :=
  match keys with
  | [] => raise ValueError
  | _ => ret (max_list keys)
  end.

(** The loop [while i <= max_files] of the branch where the primary exists;
    [a] is the primary's content. *)
Definition sync_present_step (key : nat) (a : text) : M unit :=
  let* r := gets rep_count in
  let* e := data_exists (replica_name key r) in
  (if e then
     let* b := data_read (replica_name key r) in
     if bool_decide (a ≠ b) then data_write (replica_name key r) a
     else ret tt
   else ret tt) ;;;
  modify (λ w, set_rep_count (S (rep_count w)) w).

(** The loop of the branch where the primary is missing; [self_call] is the
    recursive call [self.sync_replication()]. *)
Definition sync_missing_step (self_call : M unit) (key : nat) : M unit :=
  let* r := gets rep_count in
  let* e := data_exists (replica_name key r) in
  (if e then
     let* a := data_read (replica_name key r) in
     let* m := gets mapping in
     match get m key with
     | None => raise KeyError
     | Some rg =>
         if end_ rg - start rg =? len a then
           data_write (primary_name key) a ;;;
           self_call
         else ret tt
     end
   else ret tt) ;;;
  modify (λ w, set_rep_count (S (rep_count w)) w).

Definition sync_body (self_call : M unit) : M unit :=
  let* m := load_map in
  modify (set_mapping m) ;;;
  let keys := sorted_keys m in
  let* max_files := count_files in
  for_each keys (λ key,
    modify (set_rep_count 1%nat) ;;;
    let* e := data_exists (primary_name key) in
    if e then
      let* a := data_read (primary_name key) in
      repeat_n (S max_files) (sync_present_step key a)
    else
      repeat_n (S max_files) (sync_missing_step self_call key)).

(** [fuel] bounds the depth of the recursion. *)
Fixpoint sync_replication (fuel : nat) : M unit :=
  match fuel with
  | O => out_of_fuel
  | S fuel' => sync_body (sync_replication fuel')
  end.

Definition add_shard (fuel : nat) : M unit :=
  let* m := load_map in
  modify (set_mapping m) ;;;
  let* data := load_data_from_shards in
  let keys := sorted_keys m in
  let* mx := py_max keys in
  let new_shard_num := (mx + 2)%nat in
  let* spliced_data := _generate_sharded_data (Z.of_nat new_shard_num) data in
  write_shards spliced_data ;;;
  write_map ;;;
  sync_replication fuel.

(** The deletion loop of [remove_shard]; [true] when it hits
    [return FileNotFoundError]. *)
Fixpoint remove_primaries (keys : list nat) : M bool :=
  match keys with
  | [] => ret false
  | key :: keys' =>
      let* e := data_exists (primary_name key) in
      if e then data_remove (primary_name key) ;;; remove_primaries keys'
      else ret true
  end.

(** [os.remove('mapping.json')] *)
Definition remove_mapfile : M unit :=
  λ w, match mapfile w with
       | Some _ => (Ok tt, set_mapfile None w)
       | None => (Raise FileNotFoundError, w)
       end.

(** Returns [Some FileNotFoundError] for [return FileNotFoundError] (the
    class is returned, not raised), and [None] at the end of the method. *)
Definition remove_shard (fuel : nat) : M (option exn) :=
  let* m := load_map in
  modify (set_mapping m) ;;;
  let* data := load_data_from_shards in
  let keys := sorted_keys m in
  let* early := remove_primaries keys in
  if early : bool then ret (Some FileNotFoundError)
  else
    let* new_shard_num := py_max keys in
    let* spliced_data := _generate_sharded_data (Z.of_nat new_shard_num) data in
    remove_mapfile ;;;
    let* m' := load_map in
    modify (set_mapping m') ;;;
    write_shards spliced_data ;;;
    write_map ;;;
    sync_replication fuel ;;;
    ret None.

(** [while os.path.exists(f'data/{key}-{self.rep_count}.txt'):
       self.rep_count += 1] *)
Fixpoint probe_levels (fuel : nat) (key : nat) : M unit :=
  match fuel with
  | O => out_of_fuel
  | S fuel' =>
      let* r := gets rep_count in
      let* e := data_exists (replica_name key r) in
      if e then
        modify (λ w, set_rep_count (S (rep_count w)) w) ;;;
        probe_levels fuel' key
      else ret tt
  end.

(** The probing loop stops within as many rounds as [data/] has entries,
    plus one. *)
Definition probe_fuel : M nat :=
  gets (λ w, match data_dir w with
             | Some d => S (size d)
             | None => 1%nat
             end).

(** [keys[0]] *)
Definition first_key (keys : list nat) : M nat :=
  match keys with
  | [] => raise IndexError
  | k :: _ => ret k
  end.

(** The last statement of the method is the expression
    [self.sync_replication], without a call: it has no effect. *)
Definition add_replication : M unit :=
  let* m := load_map in
  modify (set_mapping m) ;;;
  let keys := sorted_keys m in
  let* k0 := first_key keys in
  let* r := gets rep_count in
  let* e := data_exists (replica_name k0 r) in
  (if e then let* f := probe_fuel in probe_levels f k0 else ret tt) ;;;
  for_each keys (λ key,
    let* a := data_read (primary_name key) in
    let* r := gets rep_count in
    data_write (replica_name key r) a).

Definition remove_replication (fuel : nat) : M unit :=
  let* m := load_map in
  modify (set_mapping m) ;;;
  let keys := sorted_keys m in
  modify (set_rep_count 1%nat) ;;;
  let* k0 := first_key keys in
  let* e := data_exists (replica_name k0 1%nat) in
  (if e then
     (let* f := probe_fuel in probe_levels f k0) ;;;
     for_each keys (λ key,
       let* r := gets rep_count in
       data_remove (replica_name key (r - 1)%nat))
   else raise FileNotFoundError) ;;;
  sync_replication fuel.

(** The argument of [get_shard_data]: Python does not restrict its type. *)
Inductive pyval :=
  | PyNone
  | PyInt (z : Z)
  | PyStr (s : string).

(** [not v] *)
Definition falsy (v : pyval) : bool :=
  match v with
  | PyNone => true
  | PyInt z => z =? 0
  | PyStr s => bool_decide (s = "")
  end.

(** [mapping.get(v)]: the keys are strings, so only a string can be found. *)
Fixpoint get_val (m : Mapping) (v : pyval) : option Range :=
  match m with
  | [] => None
  | (k, r) :: m' =>
      match v with
      | PyStr s => if decide (str k = s) then Some r else get_val m' v
      | _ => None
      end
  end.

(** What [get_shard_data] returns: the mapping itself, or one of its two
    formatted messages, kept here as their arguments. *)
Inductive shard_data :=
  | AllShardData (m : Mapping)
  | InvalidShardId (keys : list nat)
  | ShardInfo (shardnum : pyval) (r : Range).

Definition get_all_shard_data : M Mapping := gets mapping.

Definition get_shard_data (shardnum : pyval) : M shard_data :=
  if falsy shardnum then
    let* m := get_all_shard_data in ret (AllShardData m)
  else
    let* m := gets mapping in
    match get_val m shardnum with
    | None => ret (InvalidShardId (int_keys m))
    | Some r => ret (ShardInfo shardnum r)
    end.

(** ** Notions used in the statements *)

(** A literal text. *)
Definition T (s : string) : text := list_ascii_of_string s.

(** The content of [data/<name>], when the file exists. *)
Definition data_lookup (w : World) (name : string) : option text :=
  match data_dir w with
  | Some d => d !! name
  | None => None
  end.

(** The world right after [s = ShardHandler()] in a working directory that
    holds the index [f] (if any), the directory [data/] with the files [d]
    (if any), and no file named like an entry of [data/]. *)
Definition started (f : option Mapping) (d : option (gmap string text)) : World :=
  snd (__init__ (mkWorld [] 0 0%nat f ∅ d)).

(** A fresh process before anything is on disk. *)
Definition fresh_world : World := started None None.

(** The effect of one [_write_shard]. *)
Definition after_write_shard (num : nat) (s : text) (w : World) : World :=
  let p := if decide (num = 0%nat) then 0 else last_char_position w in
  mkWorld
    (update (mapping w) num
       {| start := if p =? 0 then p else p + 1; end_ := p + len s |})
    (p + len s) (rep_count w) (mapfile w) (cwd w)
    (Some (<[primary_name num := s]> (default ∅ (data_dir w)))).

(** The keys the sync pass iterates over: those of [mapping.json], sorted. *)
Definition persisted_keys (w : World) : list nat :=
  sorted_keys (default [] (mapfile w)).

(** The number of persisted keys whose primary file is absent. *)
Definition missing_primaries (w : World) : nat :=
  length (filter (λ k, ¬ is_Some (data_lookup w (primary_name k)))
                 (persisted_keys w)).

(** [w'] has the index of [w] and at least its files in [data/]. *)
Definition grows (w w' : World) : Prop :=
  mapfile w' = mapfile w ∧
  ∀ name, is_Some (data_lookup w name) → is_Some (data_lookup w' name).

(** Two computations behave alike from [w]: same result, no fuel shortage,
    and nothing removed from disk. *)
Definition fine {A} (m1 m2 : M A) (w : World) : Prop :=
  m1 w = m2 w ∧ fst (m1 w) ≠ OutOfFuel ∧ grows w (snd (m1 w)).

(** Two candidate recursive calls that behave alike wherever fewer than [n]
    primaries are missing. *)
Definition agree_below (n : nat) (r1 r2 : M unit) : Prop :=
  ∀ w, (missing_primaries w < n)%nat → fine r1 r2 w.

(** [w'] has the index, the in-memory mapping and the primaries of [w]. *)
Definition keeps (w w' : World) : Prop :=
  mapfile w' = mapfile w ∧ mapping w' = mapping w ∧
  ∀ k, data_lookup w' (primary_name k) = data_lookup w (primary_name k).

(** ** Concrete worlds and runs *)

(** A handler started on an index that already holds one shard. *)
Definition sharded_world : World :=
  started (Some [(0%nat, mkRange 0 2)]) (Some {[ "0.txt" := T "AB" ]}).

(** [build_shards(5, "ABCDEFGHIJ")] in a fresh process. *)
Definition built_five : outcome (option string) * World :=
  build_shards 5 (T "ABCDEFGHIJ") fresh_world.

(** [build_shards(3, "AB")] in a fresh process: more shards than characters. *)
Definition built_three_of_two : outcome (option string) * World :=
  build_shards 3 (T "AB") fresh_world.

(** Two shards, as left on disk by [build_shards(2, "ABCD")]. *)
Definition two_shards : World :=
  snd (build_shards 2 (T "ABCD") fresh_world).

(** Two shards whose text holds carriage returns, as left on disk by
    [build_shards(2, "A\rB\r")]. *)
Definition two_shards_cr : World :=
  snd (build_shards 2 ["A"%char; CR; "B"%char; CR] fresh_world).

(** Two shards on disk under an index that lists shard 1 before shard 0. *)
Definition two_shards_permuted : World :=
  started (Some [(1%nat, mkRange 3 4); (0%nat, mkRange 0 2)])
          (Some (<[ "0.txt" := T "AB" ]> {[ "1.txt" := T "CD" ]})).

(** One shard of range [0, 2) whose primary was deleted out of band; its
    level-1 replica was truncated to one character, its level-2 replica is
    intact. The working directory holds nothing named like a file of
    [data/]. *)
Definition lost_primary : World :=
  started (Some [(0%nat, mkRange 0 2)])
          (Some (<[ "0-1.txt" := T "X" ]> {[ "0-2.txt" := T "AB" ]})).

(** As [lost_primary], with the level-1 replica intact. *)
Definition lost_primary_level_one : World :=
  started (Some [(0%nat, mkRange 0 2)])
          (Some (<[ "0-1.txt" := T "AB" ]> {[ "0-2.txt" := T "AB" ]})).

(** As [lost_primary], with no level-1 replica at all. *)
Definition lost_primary_lone_level_two : World :=
  started (Some [(0%nat, mkRange 0 2)]) (Some {[ "0-2.txt" := T "AB" ]}).

(** One shard whose level-1 replica drifted from the primary. *)
Definition drifted_replica : World :=
  started (Some [(0%nat, mkRange 0 2)])
          (Some (<[ "0.txt" := T "AB" ]> {[ "0-1.txt" := T "ZZ" ]})).

(** Two replica levels, then a re-shard, then a third level and a sync. *)
Definition replicate_twice_then_reshard : M unit :=
  build_shards 2 (T "ABCDEF") ;;;
  add_replication ;;;
  add_replication ;;;
  add_shard 1 ;;;
  add_replication ;;;
  sync_replication 1.

(** The entry [_write_shard] stores for a shard [x] when the running offset
    is [p]. *)
Definition range_at (p : Z) (x : text) : Range :=
  {| start := if p =? 0 then p else p + 1; end_ := p + len x |}.

(** What the comparison [a != b] of the sync pass leaves in a replica that
    holds [b], when the primary was read as [a]: the replica is rewritten
    with [a] unless it already reads as [a]. *)
Definition resync (a b : text) : text :=
  if decide (a = universal_newlines b) then b else a.

(** In [w], every replica of shard [k] at a level from 1 to [top] that
    exists reads as the primary of [k] reads: the two files hold the same
    text up to the line endings that text-mode reading translates. *)
Definition synced_upto (top : nat) (w : World) (k : nat) : Prop :=
  ∀ l b, (1 ≤ l ≤ top)%nat →
         data_lookup w (replica_name k l) = Some b →
         ∃ p, data_lookup w (primary_name k) = Some p ∧
              universal_newlines b = universal_newlines p.

(** [w] and [w'] have the same file names in [data/]. *)
Definition same_files (w w' : World) : Prop :=
  ∀ name, is_Some (data_lookup w' name) ↔ is_Some (data_lookup w name).

(** Two shards with one replica level, as left by [build_shards(2, "ABCD")]
    and [add_replication()]. *)
Definition two_shards_replicated : World :=
  snd (add_replication two_shards).

(** The state the sync pass keeps while it repairs shard [key] from replicas
    that all read as [a]: the index is [mf], the level-1 replica of [key] is
    there, every replica of [key] reads as [a], and the primary of [key] is
    either missing or [a]. *)
Definition restore_inv (mf : option Mapping) (key : nat) (a : text)
    (w : World) : Prop :=
  mapfile w = mf ∧
  is_Some (data_lookup w (replica_name key 1)) ∧
  (∀ l b, data_lookup w (replica_name key l) = Some b →
          universal_newlines b = a) ∧
  (data_lookup w (primary_name key) = None ∨
   data_lookup w (primary_name key) = Some a).

Definition restored (key : nat) (a : text) (w : World) : Prop :=
  data_lookup w (primary_name key) = Some a.

(** A stretch of the pass from [w] to [w']. *)
Definition restore_step (mf : option Mapping) (key : nat) (a : text)
    (w w' : World) : Prop :=
  grows w w' ∧ restore_inv mf key a w' ∧ mapping w' = default [] mf ∧
  (restored key a w → restored key a w').

(** A stand-in for the recursive call that repairs [key] wherever fewer than
    [n] primaries are missing. *)
Definition restores_below (mf : option Mapping) (key : nat) (a : text)
    (n : nat) (self_call : M unit) : Prop :=
  ∀ w, restore_inv mf key a w → (missing_primaries w < n)%nat →
    ∃ w', self_call w = (Ok tt, w') ∧ restore_step mf key a w w' ∧
          restored key a w'.

(** Once the primary of [k] is there, fewer than [n] primaries are missing. *)
Definition few_missing_once (n k : nat) (w : World) : Prop :=
  ∀ w', grows w w' → is_Some (data_lookup w' (primary_name k)) →
        (missing_primaries w' < n)%nat.

Definition is_digit (c : ascii) : bool :=
  ((48 <=? nat_of_ascii c) && (nat_of_ascii c <=? 57))%nat.

Fixpoint all_digits (s : string) : bool :=
  match s with
  | EmptyString => true
  | String c s' => is_digit c && all_digits s'
  end.

Definition starts_nondigit (s : string) : Prop :=
  match s with
  | EmptyString => False
  | String c _ => is_digit c = false
  end.

(** * Starting a handler *)

Lemma started_fields f d :
  started f d = mkWorld (default [] f) 0 1%nat f ∅ d.
Proof. reflexivity. Qed.

(** * Reading in text mode *)

(** A carriage return followed by a line feed gives one line feed, a
    carriage return alone gives one too, and a line feed stays. *)
Example universal_newlines_samples :
  universal_newlines ["A"%char; CR; LF; "B"%char] = ["A"%char; LF; "B"%char] ∧
  universal_newlines ["A"%char; CR] = ["A"%char; LF] ∧
  universal_newlines [CR; CR; LF; LF] = [LF; LF; LF] ∧
  universal_newlines (T "AB") = T "AB".
Proof. by repeat apply conj. Qed.

Lemma universal_newlines_no_cr (s : text) : CR ∉ universal_newlines s.
Proof.
  induction (Nat.lt_wf_0_projected (@length ascii) s) as [s _ IH].
  destruct s as [|c s']; simpl.
  - apply not_elem_of_nil.
  - destruct (Ascii.eqb_spec c CR) as [->|Hc].
    + destruct s' as [|c' s''].
      * intros H%list_elem_of_singleton. discriminate H.
      * destruct (Ascii.eqb c' LF); apply not_elem_of_cons;
          (split; [discriminate|]); apply IH; simpl; lia.
    + apply not_elem_of_cons. split; [congruence|]. apply IH. simpl. lia.
Qed.

Lemma universal_newlines_id (s : text) :
  CR ∉ s → universal_newlines s = s.
Proof.
  induction s as [|c s IH]; intros H; simpl; [done|].
  apply not_elem_of_cons in H as [Hc Hs].
  destruct (Ascii.eqb_spec c CR) as [->|_]; [done|]. by rewrite IH.
Qed.

Lemma universal_newlines_idem (s : text) :
  universal_newlines (universal_newlines s) = universal_newlines s.
Proof. apply universal_newlines_id, universal_newlines_no_cr. Qed.

Lemma concat_no_cr (l : list text) :
  (∀ x, x ∈ l → CR ∉ x) → CR ∉ concat l.
Proof.
  intros H Hin. apply list_elem_of_In, in_concat in Hin as (x & Hx & Hc).
  apply (H x); by apply list_elem_of_In.
Qed.

Lemma no_cr_concat (l : list text) (x : text) :
  CR ∉ concat l → x ∈ l → CR ∉ x.
Proof.
  intros H Hx Hc. apply H, list_elem_of_In, in_concat.
  exists x. split; by apply list_elem_of_In.
Qed.

Lemma fmap_universal_newlines_id (l : list text) :
  (∀ x, x ∈ l → CR ∉ x) → universal_newlines <$> l = l.
Proof.
  induction l as [|y l IH]; intros H; csimpl; [done|].
  rewrite universal_newlines_id by (apply H; by left).
  rewrite IH; [done|]. intros x Hx. apply H. by right.
Qed.

Lemma resync_reads (a b : text) :
  universal_newlines a = a → universal_newlines (resync a b) = a.
Proof. intros Ha. unfold resync. by destruct (decide _). Qed.

Lemma resync_kept (a b : text) : universal_newlines b = a → resync a b = b.
Proof. intros Hb. unfold resync. by rewrite decide_True. Qed.

Lemma resync_idem (a b : text) :
  universal_newlines a = a → resync a (resync a b) = resync a b.
Proof. intros Ha. by apply resync_kept, resync_reads. Qed.

(** Text that was read in text mode and split again reads back as it is. *)
Lemma reread_split (vals shards : list text) :
  concat shards = concat (universal_newlines <$> vals) →
  universal_newlines <$> shards = shards.
Proof.
  intros Hcat. apply fmap_universal_newlines_id. intros x Hx.
  apply (no_cr_concat shards); [|done]. rewrite Hcat.
  apply concat_no_cr. intros y Hy.
  apply list_elem_of_fmap in Hy as (z & -> & _).
  apply universal_newlines_no_cr.
Qed.

(** * File names *)

Lemma str_all_digits n : all_digits (str n) = true.
Proof.
  unfold str. generalize (Nat.to_uint n).
  induction u; simpl; auto.
Qed.

Lemma str_inj n m : str n = str m → n = m.
Proof.
  unfold str. intros H.
  apply (f_equal NilEmpty.uint_of_string) in H.
  rewrite !NilEmpty.usu in H.
  injection H as H.
  apply (f_equal Nat.of_uint) in H.
  by rewrite !Unsigned.of_to in H.
Qed.

Lemma append_nil_l s : "" +:+ s = s.
Proof. reflexivity. Qed.

Lemma append_cons c s r : String c s +:+ r = String c (s +:+ r).
Proof. reflexivity. Qed.

Lemma digits_split d1 d2 r1 r2 :
  all_digits d1 = true → all_digits d2 = true →
  starts_nondigit r1 → starts_nondigit r2 →
  d1 +:+ r1 = d2 +:+ r2 → d1 = d2 ∧ r1 = r2.
Proof.
  revert d2. induction d1 as [|a d1 IH]; intros [|b d2]; simpl;
    intros H1 H2 N1 N2 E; rewrite ?append_nil_l, ?append_cons in E.
  - done.
  - subst r1. simpl in N1. apply andb_prop in H2 as [H2 _]. congruence.
  - subst r2. simpl in N2. apply andb_prop in H1 as [H1 _]. congruence.
  - injection E as -> E.
    apply andb_prop in H1 as [_ H1]. apply andb_prop in H2 as [_ H2].
    destruct (IH d2 H1 H2 N1 N2 E) as [-> ->]. done.
Qed.

Lemma primary_name_inj k k' : primary_name k = primary_name k' → k = k'.
Proof.
  unfold primary_name. intros E.
  apply digits_split in E as [E _];
    [by apply str_inj | apply str_all_digits.. | reflexivity | reflexivity].
Qed.

Lemma replica_primary_ne k l k' : replica_name k l ≠ primary_name k'.
Proof.
  unfold replica_name, primary_name. intros E.
  apply digits_split in E as [_ E];
    [| apply str_all_digits.. | reflexivity | reflexivity].
  rewrite !append_cons in E. discriminate.
Qed.

Lemma replica_name_inj k l k' l' :
  replica_name k l = replica_name k' l' → k = k' ∧ l = l'.
Proof.
  unfold replica_name. intros E.
  apply digits_split in E as [E1 E2];
    [| apply str_all_digits.. | reflexivity | reflexivity].
  rewrite !append_cons, !append_nil_l in E2. injection E2 as E2.
  apply digits_split in E2 as [E2 _];
    [| apply str_all_digits.. | reflexivity | reflexivity].
  split; by apply str_inj.
Qed.

(** * Slicing and [_generate_sharded_data] *)

Lemma py_slice_nat (s : text) (a b : nat) :
  (a ≤ b ≤ length s)%nat →
  py_slice s (Z.of_nat a) (Z.of_nat b) = take (b - a) (drop a s).
Proof.
  intros H. unfold py_slice, norm_index, len.
  destruct (Z.ltb_spec (Z.of_nat a) 0); [lia|].
  destruct (Z.ltb_spec (Z.of_nat b) 0); [lia|].
  rewrite !Z.min_l by lia.
  replace (Z.of_nat b - Z.of_nat a) with (Z.of_nat (b - a)) by lia.
  by rewrite !Nat2Z.id.
Qed.

Lemma py_slice_from_neg (s : text) (r : nat) :
  (0 < r ≤ length s)%nat →
  py_slice_from s (- Z.of_nat r) = drop (length s - r) s.
Proof.
  intros H. unfold py_slice_from, norm_index, len.
  destruct (Z.ltb_spec (- Z.of_nat r) 0); [|lia].
  rewrite Z.max_r by lia.
  replace (- Z.of_nat r + Z.of_nat (length s)) with (Z.of_nat (length s - r))
    by lia.
  by rewrite Nat2Z.id.
Qed.

Lemma append_to_last_snoc (l : list text) (y x : text) :
  append_to_last (l ++ [y]) x = l ++ [y ++ x].
Proof.
  induction l as [|z l IH]; [done|].
  simpl. rewrite IH. by destruct l.
Qed.

Lemma concat_chunks (s : text) (B k : nat) :
  concat ((λ i, take B (drop (B * i) s)) <$> seq 0 k) = take (B * k) s.
Proof.
  induction k as [|k IH].
  - by rewrite Nat.mul_0_r.
  - rewrite seq_S, fmap_app, concat_app, IH. simpl.
    rewrite app_nil_r, take_take_drop. f_equal. lia.
Qed.

(** The list comprehension of [_generate_sharded_data], over [nat]. *)
Lemma comprehension_nat (s : text) (N : nat) :
  (0 < N)%nat →
  (λ z, py_slice s (len s / Z.of_nat N * z) (len s / Z.of_nat N * (z + 1)))
    <$> py_range (Z.of_nat N)
  = (λ i, take (length s / N) (drop (length s / N * i) s)) <$> seq 0 N.
Proof.
  intros HN. unfold py_range. rewrite Nat2Z.id, <- list_fmap_compose.
  apply list_fmap_ext. intros i x Hx. simpl.
  apply lookup_seq in Hx as [-> Hi]. simpl in *.
  unfold len. rewrite <- Nat2Z.inj_div.
  replace (Z.of_nat i + 1) with (Z.of_nat (S i)) by lia.
  rewrite <- !Nat2Z.inj_mul.
  pose proof (Nat.div_mod_eq (length s) N) as E.
  rewrite py_slice_nat by nia.
  f_equal. lia.
Qed.

(** For a positive count the split succeeds and touches nothing; it returns
    [count] pieces whose concatenation is the text, all of the base size but
    the last, which also takes the remainder. *)
Lemma generate_sharded_data_spec (count : Z) (s : text) (w : World) :
  0 < count →
  ∃ shards,
    _generate_sharded_data count s w = (Ok shards, w) ∧
    length shards = Z.to_nat count ∧
    concat shards = s ∧
    (∀ i x, shards !! i = Some x → (S i < Z.to_nat count)%nat →
            len x = len s / count) ∧
    (∀ i x, shards !! i = Some x → S i = Z.to_nat count →
            len x = len s / count + len s mod count).
Proof.
  intros Hc.
  destruct (Z_of_nat_complete count) as [N ->]; [lia|].
  assert (HN : (0 < N)%nat) by lia.
  unfold _generate_sharded_data.
  destruct (Z.eqb_spec (Z.of_nat N) 0) as [|_]; [lia|].
  rewrite comprehension_nat by done.
  rewrite Nat2Z.id. unfold len.
  rewrite <- !Nat2Z.inj_mod, <- !Nat2Z.inj_div.
  set (n := length s). set (B := (n / N)%nat). set (r := (n mod N)%nat).
  assert (En : n = (N * B + r)%nat) by apply Nat.div_mod_eq.
  assert (Hr : (r < N)%nat) by (apply Nat.mod_upper_bound; lia).
  set (f := λ i : nat, take B (drop (B * i) s)).
  assert (Hlen : ∀ i, (i < N)%nat → length (f i) = B).
  { intros i Hi. unfold f. rewrite length_take, length_drop. fold n. nia. }
  destruct N as [|N']; [lia|].
  rewrite seq_S, fmap_app. simpl.
  destruct (Z.ltb_spec 0 (Z.of_nat r)).
  - (* a remainder: it goes to the last piece *)
    rewrite py_slice_from_neg by (fold n; lia). fold n.
    exists (append_to_last ((f <$> seq 0 N') ++ [f N'])
                           (drop (n - r) s)).
    split.
    { by destruct ((f <$> seq 0 N') ++ [f N']) eqn:E;
        [apply app_eq_nil in E as [_ ?]|]. }
    rewrite append_to_last_snoc.
    split; [rewrite length_app, length_fmap, length_seq; simpl; lia|].
    split.
    { rewrite concat_app. unfold f at 1. rewrite concat_chunks. simpl.
      rewrite app_nil_r. unfold f. rewrite app_assoc, take_take_drop.
      replace (B * N' + B)%nat with (n - r)%nat by lia.
      apply take_drop. }
    split.
    + intros i x Hx Hi.
      rewrite lookup_app_l in Hx by (rewrite length_fmap, length_seq; lia).
      rewrite list_lookup_fmap, lookup_seq_lt in Hx by lia.
      injection Hx as <-. rewrite Hlen by lia. done.
    + intros i x Hx Hi. assert (i = N') as -> by lia.
      rewrite lookup_app_r in Hx by (rewrite length_fmap, length_seq; lia).
      rewrite length_fmap, length_seq, Nat.sub_diag in Hx.
      injection Hx as <-.
      rewrite length_app, Hlen, length_drop by lia. fold n. lia.
  - (* no remainder *)
    assert (r = 0%nat) as Hr0 by lia.
    exists ((f <$> seq 0 N') ++ [f N']).
    split; [done|].
    split; [rewrite length_app, length_fmap, length_seq; simpl; lia|].
    split.
    { rewrite concat_app. unfold f at 1. rewrite concat_chunks. simpl.
      rewrite app_nil_r. unfold f. rewrite take_take_drop.
      apply take_ge. fold n. lia. }
    split.
    + intros i x Hx Hi.
      rewrite lookup_app_l in Hx by (rewrite length_fmap, length_seq; lia).
      rewrite list_lookup_fmap, lookup_seq_lt in Hx by lia.
      injection Hx as <-. rewrite Hlen by lia. done.
    + intros i x Hx Hi. assert (i = N') as -> by lia.
      rewrite lookup_app_r in Hx by (rewrite length_fmap, length_seq; lia).
      rewrite length_fmap, length_seq, Nat.sub_diag in Hx.
      injection Hx as <-. rewrite Hlen by lia. lia.
Qed.

(** * Writing shards *)

Lemma bind_eq {A B} (m : M A) (k : A → M B) (w w' : World) (a : A) :
  m w = (Ok a, w') → bind m k w = k a w'.
Proof. unfold bind. by intros ->. Qed.

(** Runs the first computation of a [bind] with a known result. *)
Ltac run H := erewrite bind_eq; [|exact H].

Lemma update_keys_fresh (m : Mapping) (k : nat) (r : Range) :
  k ∉ int_keys m → int_keys (update m k r) = int_keys m ++ [k].
Proof.
  unfold int_keys. induction m as [|[k' v] m IH]; csimpl; [done|].
  intros Hk. apply not_elem_of_cons in Hk as [Hne Hk].
  destruct (decide (k' = k)); [congruence|]. csimpl. by rewrite IH.
Qed.

Lemma write_shard_eq (num : nat) (s : text) (w : World) :
  _write_shard num s w = (Ok tt, after_write_shard num s w).
Proof.
  unfold _write_shard, after_write_shard, bind, ensure_data_dir, data_write,
    _reset_char_position, modify, ret.
  destruct w as [m p r f c [d|]]; simpl; by destruct (decide (num = 0%nat)).
Qed.

Lemma data_lookup_after_write (num : nat) (s : text) (w : World) name :
  data_lookup (after_write_shard num s w) name =
  if decide (name = primary_name num) then Some s else data_lookup w name.
Proof.
  unfold data_lookup, after_write_shard. simpl.
  destruct (decide (name = primary_name num)) as [->|Hne].
  - by rewrite lookup_insert_eq.
  - rewrite lookup_insert_ne by done. by destruct (data_dir w).
Qed.

Lemma write_shards_from_spec (l : list text) : ∀ (n : nat) (w : World),
  int_keys (mapping w) = seq 0 n →
  ∃ w',
    for_each (enumerate_from n l) (λ '(num, d), _write_shard num d) w
      = (Ok tt, w') ∧
    int_keys (mapping w') = seq 0 (n + length l) ∧
    mapfile w' = mapfile w ∧ cwd w' = cwd w ∧ rep_count w' = rep_count w ∧
    (∀ i x, l !! i = Some x →
            data_lookup w' (primary_name (n + i)) = Some x) ∧
    (∀ name, (∀ i, (i < length l)%nat → name ≠ primary_name (n + i)) →
             data_lookup w' name = data_lookup w name).
Proof.
  induction l as [|x l IH]; intros n w Hk.
  - exists w. simpl. rewrite Nat.add_0_r. repeat split; done.
  - simpl. run (write_shard_eq n x w).
    set (w1 := after_write_shard n x w).
    assert (Hk1 : int_keys (mapping w1) = seq 0 (S n)).
    { unfold w1, after_write_shard. cbn [mapping].
      rewrite update_keys_fresh, Hk, seq_S; [done|].
      rewrite Hk, elem_of_seq. lia. }
    destruct (IH (S n) w1 Hk1) as (w' & E & K & F & C & R & L & U).
    exists w'. split; [done|].
    split; [by rewrite K, Nat.add_succ_r|].
    repeat split; try done.
    + intros [|i] y Hy; simpl in Hy.
      * injection Hy as <-. rewrite Nat.add_0_r, U.
        { unfold w1. rewrite data_lookup_after_write.
          by destruct (decide _). }
        intros i _ Heq. apply primary_name_inj in Heq. lia.
      * rewrite Nat.add_succ_r. by apply L.
    + intros name Hn. rewrite U.
      * unfold w1. rewrite data_lookup_after_write.
        destruct (decide _) as [->|]; [|done].
        exfalso. apply (Hn 0%nat); [simpl; lia|]. by rewrite Nat.add_0_r.
      * intros i Hi. replace (S n + i)%nat with (n + S i)%nat by lia.
        apply Hn. simpl. lia.
Qed.

(** Reading back: [read_shards] returns the primaries of the keys in order,
    each as text-mode reading gives it, and changes nothing. *)
Lemma read_shards_eq (w : World) (keys : list nat) (vals : list text) :
  Forall2 (λ k v, data_lookup w (primary_name k) = Some v) keys vals →
  read_shards keys w = (Ok (universal_newlines <$> vals), w).
Proof.
  induction 1 as [|k v keys vals Hk _ IH]; simpl; [done|].
  unfold bind, data_read. unfold data_lookup in Hk.
  destruct (data_dir w) as [d|]; [|done]. rewrite Hk, IH. done.
Qed.

Lemma read_shards_present (w : World) (keys : list nat) :
  (∀ k, k ∈ keys → is_Some (data_lookup w (primary_name k))) →
  ∃ vals,
    Forall2 (λ k v, data_lookup w (primary_name k) = Some v) keys vals.
Proof.
  induction keys as [|k keys IH]; intros H.
  - exists []. constructor.
  - destruct (H k) as [v Hv]; [by left|].
    destruct IH as [vals Hvals]; [intros; apply H; by right|].
    exists (v :: vals). by constructor.
Qed.

(** What a build does for a positive count on an empty in-memory mapping. *)
Lemma build_shards_spec (count : Z) (s : text) (w : World) :
  0 < count → mapping w = [] →
  ∃ shards w',
    build_shards count s w = (Ok None, w') ∧
    length shards = Z.to_nat count ∧
    concat shards = s ∧
    (∀ i x, shards !! i = Some x → (S i < Z.to_nat count)%nat →
            len x = len s / count) ∧
    (∀ i x, shards !! i = Some x → S i = Z.to_nat count →
            len x = len s / count + len s mod count) ∧
    int_keys (mapping w') = seq 0 (Z.to_nat count) ∧
    mapfile w' = Some (mapping w') ∧
    cwd w' = cwd w ∧
    (∀ i x, shards !! i = Some x →
            data_lookup w' (primary_name i) = Some x) ∧
    (∀ name, (∀ i, (i < Z.to_nat count)%nat → name ≠ primary_name i) →
             data_lookup w' name = data_lookup w name) ∧
    load_data_from_shards w' =
      (Ok (concat (universal_newlines <$> shards)), w').
Proof.
  intros Hc Hm.
  destruct (generate_sharded_data_spec count s w Hc)
    as (shards & G & Hlen & Hcat & Hbase & Hlast).
  destruct (write_shards_from_spec shards 0 w) as (w1 & E & K & F & C & R & L & U).
  { by rewrite Hm. }
  set (w' := set_mapfile (Some (mapping w1)) w1).
  exists shards, w'.
  assert (Hrun : build_shards count s w = (Ok None, w')).
  { unfold build_shards, bind at 1, gets. rewrite Hm. simpl.
    run G. unfold write_shards, enumerate. run E. done. }
  assert (HL : ∀ i x, shards !! i = Some x →
                      data_lookup w' (primary_name i) = Some x).
  { intros i x Hx. by apply (L i x). }
  repeat split; try done.
  - by rewrite <- Hlen.
  - intros name Hn. apply (U name). intros i Hi. apply Hn. lia.
  - unfold load_data_from_shards, bind at 1, gets. simpl.
    change (int_keys (mapping w1)) with (int_keys (mapping w')) .
    assert (int_keys (mapping w') = seq 0 (length shards)) as -> by done.
    erewrite bind_eq; [done|].
    apply read_shards_eq.
    apply Forall2_same_length_lookup. split; [by rewrite length_seq|].
    intros i k v Hk Hv. apply lookup_seq in Hk as [-> _]. by apply HL.
Qed.

(** * Termination of the sync pass *)

Lemma grows_refl w : grows w w.
Proof. by split. Qed.

Lemma grows_trans w1 w2 w3 : grows w1 w2 → grows w2 w3 → grows w1 w3.
Proof. intros [F1 D1] [F2 D2]. split; [congruence | auto]. Qed.

Lemma filter_length_le {A} (P Q : A → Prop)
    `{∀ x, Decision (P x)} `{∀ x, Decision (Q x)} (l : list A) :
  (∀ x, x ∈ l → Q x → P x) →
  (length (filter Q l) ≤ length (filter P l))%nat.
Proof.
  induction l as [|x l IH]; intros HPQ; [done|].
  rewrite !filter_cons.
  assert (IH' : (length (filter Q l) ≤ length (filter P l))%nat).
  { apply IH. intros y Hy. apply HPQ. by right. }
  destruct (decide (Q x)) as [q|]; destruct (decide (P x)) as [|np];
    simpl; try lia.
  destruct np. apply HPQ; [by left | done].
Qed.

Lemma filter_length_lt {A} (P Q : A → Prop)
    `{∀ x, Decision (P x)} `{∀ x, Decision (Q x)} (l : list A) (a : A) :
  (∀ x, x ∈ l → Q x → P x) → a ∈ l → P a → ¬ Q a →
  (length (filter Q l) < length (filter P l))%nat.
Proof.
  induction l as [|x l IH]; intros HPQ Ha Pa NQa; [by apply elem_of_nil in Ha|].
  rewrite !filter_cons.
  assert (HPQ' : ∀ y, y ∈ l → Q y → P y) by (intros y Hy; apply HPQ; by right).
  pose proof (filter_length_le P Q l HPQ') as Hle.
  apply elem_of_cons in Ha as [<-|Ha].
  - destruct (decide (Q a)); [done|]. destruct (decide (P a)); [|done].
    simpl. lia.
  - specialize (IH HPQ' Ha Pa NQa).
    destruct (decide (Q x)) as [q|]; destruct (decide (P x)) as [|np];
      simpl; try lia.
    destruct np. apply HPQ; [by left | done].
Qed.

Lemma grows_persisted_keys w w' : grows w w' → persisted_keys w' = persisted_keys w.
Proof. intros [F _]. unfold persisted_keys. by rewrite F. Qed.

Lemma grows_missing_le w w' :
  grows w w' → (missing_primaries w' ≤ missing_primaries w)%nat.
Proof.
  intros G. unfold missing_primaries. rewrite (grows_persisted_keys _ _ G).
  apply filter_length_le. intros k _ Hk Hs. apply Hk. by apply G.
Qed.

Lemma grows_missing_lt w w' key :
  grows w w' → key ∈ persisted_keys w →
  ¬ is_Some (data_lookup w (primary_name key)) →
  is_Some (data_lookup w' (primary_name key)) →
  (missing_primaries w' < missing_primaries w)%nat.
Proof.
  intros G Hk Hmiss Hpres. unfold missing_primaries.
  rewrite (grows_persisted_keys _ _ G).
  apply (filter_length_lt _ _ _ key); [|done|done|by intros []].
  intros k _ Hk' Hs. apply Hk'. by apply G.
Qed.

Lemma fine_bind {A B} (m1 m2 : M A) (k1 k2 : A → M B) w :
  fine m1 m2 w →
  (∀ a w', m1 w = (Ok a, w') → grows w w' → fine (k1 a) (k2 a) w') →
  fine (bind m1 k1) (bind m2 k2) w.
Proof.
  intros (E & NF & G) Hk. unfold fine, bind. rewrite <- E.
  destruct (m1 w) as [[a|e|] w'] eqn:Em; simpl in *.
  2: by split; [|split].
  2: done.
  destruct (Hk a w' eq_refl G) as (E' & NF' & G').
  split; [done|]. split; [done|]. by apply (grows_trans _ w').
Qed.

Lemma fine_same {A} (m : M A) w r w' :
  m w = (r, w') → r ≠ OutOfFuel → grows w w' → fine m m w.
Proof. intros E NF G. unfold fine. rewrite E. by split; [|split]. Qed.

Lemma fine_gets {A} (f : World → A) w : fine (gets f) (gets f) w.
Proof. by apply (fine_same _ w (Ok (f w)) w), grows_refl. Qed.

Lemma fine_ret {A} (a : A) w : fine (ret a) (ret a) w.
Proof. by apply (fine_same _ w (Ok a) w), grows_refl. Qed.

Lemma fine_raise {A} e w : fine (@raise A e) (raise e) w.
Proof. by apply (fine_same _ w (Raise e) w), grows_refl. Qed.

Lemma fine_modify f w : grows w (f w) → fine (modify f) (modify f) w.
Proof. intros G. by apply (fine_same _ w (Ok tt) (f w)). Qed.

Lemma fine_data_read name w : fine (data_read name) (data_read name) w.
Proof.
  destruct (data_read name w) as [r w'] eqn:E.
  apply (fine_same _ w r w'); [done|..]; unfold data_read in E;
    destruct (data_dir w) as [d|]; [destruct (d !! name)| |destruct (d !! name)|];
    injection E as <- <-; first [done | apply grows_refl].
Qed.

Lemma grows_data_write name s w w' :
  data_write name s w = (Ok tt, w') →
  grows w w' ∧ data_lookup w' name = Some s.
Proof.
  unfold data_write, grows, data_lookup.
  destruct (data_dir w) as [d|]; [|done]. intros [= <-]. simpl.
  split; [split; [done|]|by rewrite lookup_insert_eq].
  intros n Hn. destruct (decide (name = n)) as [->|].
  - by rewrite lookup_insert_eq.
  - by rewrite lookup_insert_ne.
Qed.

Lemma fine_data_write name s w : fine (data_write name s) (data_write name s) w.
Proof.
  destruct (data_write name s w) as [[[]|e|] w'] eqn:E.
  - apply (fine_same _ w (Ok tt) w'); [done..|].
    by apply (grows_data_write name s).
  - apply (fine_same _ w (Raise e) w'); [done..|].
    unfold data_write in E. destruct (data_dir w); [done|].
    injection E as _ <-. apply grows_refl.
  - unfold data_write in E. by destruct (data_dir w).
Qed.

Lemma fine_count_files w : fine count_files count_files w.
Proof.
  destruct (count_files w) as [r w'] eqn:E.
  apply (fine_same _ w r w'); [done|..]; unfold count_files in E;
    destruct (data_dir w); injection E as <- <-;
    first [done | apply grows_refl].
Qed.

Lemma fine_data_exists name w : fine (data_exists name) (data_exists name) w.
Proof. apply fine_gets. Qed.

Lemma fine_for_each {A} (I : World → Prop) (l : list A) (b1 b2 : A → M unit) :
  (∀ w w', I w → grows w w' → I w') →
  (∀ x w, x ∈ l → I w → fine (b1 x) (b2 x) w) →
  ∀ w, I w → fine (for_each l b1) (for_each l b2) w.
Proof.
  intros HI. induction l as [|x l IH]; intros Hb w Hw; simpl.
  - apply fine_ret.
  - apply fine_bind; [apply Hb; [by left | done]|].
    intros _ w' _ G. apply IH; [|by apply (HI w)].
    intros y w'' Hy. apply Hb. by right.
Qed.

Lemma fine_repeat_n (I : World → Prop) (n : nat) (b1 b2 : M unit) :
  (∀ w w', I w → grows w w' → I w') →
  (∀ w, I w → fine b1 b2 w) →
  ∀ w, I w → fine (repeat_n n b1) (repeat_n n b2) w.
Proof.
  intros HI Hb. induction n as [|n IH]; intros w Hw; simpl.
  - apply fine_ret.
  - apply fine_bind; [by apply Hb|].
    intros _ w' _ G. apply IH. by apply (HI w).
Qed.

Lemma grows_set_rep_count r w : grows w (set_rep_count r w).
Proof. by split. Qed.

Lemma grows_set_mapping m w : grows w (set_mapping m w).
Proof. by split. Qed.

Lemma fine_bump_rep_count w :
  fine (modify (λ w, set_rep_count (S (rep_count w)) w))
       (modify (λ w, set_rep_count (S (rep_count w)) w)) w.
Proof. apply fine_modify, grows_set_rep_count. Qed.

Lemma fine_sync_present_step key a w :
  fine (sync_present_step key a) (sync_present_step key a) w.
Proof.
  unfold sync_present_step.
  apply fine_bind; [apply fine_gets|]. intros r w1 _ _.
  apply fine_bind; [apply fine_data_exists|]. intros e w2 _ _.
  apply fine_bind; [|intros; apply fine_bump_rep_count].
  destruct e; [|apply fine_ret].
  apply fine_bind; [apply fine_data_read|]. intros b w3 _ _.
  case_bool_decide; [apply fine_data_write | apply fine_ret].
Qed.

Lemma data_exists_inv name w e w' :
  data_exists name w = (Ok e, w') →
  w' = w ∧ (e = true ↔ is_Some (data_lookup w name)).
Proof.
  unfold data_exists, gets, data_lookup. intros [= <- <-]. split; [done|].
  destruct (data_dir w) as [d|].
  - by rewrite bool_decide_eq_true.
  - split; [done | by intros [? ?]].
Qed.

Section RecursiveCall.
(** Two stand-ins for the recursive call that behave alike below [n]. *)
Context (n : nat) (r1 r2 : M unit).
Hypothesis Hagree : agree_below n r1 r2.

Lemma fine_sync_missing_step key w :
  (∀ w', grows w w' → is_Some (data_lookup w' (primary_name key)) →
         (missing_primaries w' < n)%nat) →
  fine (sync_missing_step r1 key) (sync_missing_step r2 key) w.
Proof.
  intros Hkey. unfold sync_missing_step.
  apply fine_bind; [apply fine_gets|]. intros r w1 _ G1.
  apply fine_bind; [apply fine_data_exists|]. intros e w2 _ G2.
  apply fine_bind; [|intros; apply fine_bump_rep_count].
  destruct e; [|apply fine_ret].
  apply fine_bind; [apply fine_data_read|]. intros a w3 _ G3.
  apply fine_bind; [apply fine_gets|]. intros m w4 _ G4.
  destruct (get m key); [|apply fine_raise].
  destruct (_ =? _); [|apply fine_ret].
  apply fine_bind; [apply fine_data_write|]. intros [] w5 E5 G5.
  apply Hagree, Hkey.
  - eauto using grows_trans.
  - apply grows_data_write in E5 as [_ ->]. done.
Qed.

Lemma fine_sync_body w :
  (missing_primaries w ≤ n)%nat →
  fine (sync_body r1) (sync_body r2) w.
Proof.
  intros Hn. unfold sync_body.
  apply fine_bind; [apply fine_gets|]. intros m w1 E1 G1.
  injection E1 as <- <-.
  apply fine_bind; [apply fine_modify, grows_set_mapping|]. intros [] w2 _ G2.
  apply fine_bind; [apply fine_count_files|]. intros max_files w3 _ G3.
  apply (fine_for_each (grows w)).
  - intros v v'. apply grows_trans.
  - intros key v Hkey Gv.
    apply fine_bind; [apply fine_modify, grows_set_rep_count|].
    intros [] v1 _ Gv1.
    apply fine_bind; [apply fine_data_exists|]. intros e v2 Ev2 Gv2.
    apply data_exists_inv in Ev2 as [-> He].
    destruct e.
    + apply fine_bind; [apply fine_data_read|]. intros a v3 _ _.
      apply (fine_repeat_n (λ _, True)); auto using fine_sync_present_step.
    + apply (fine_repeat_n (λ u, ∀ w',
        grows u w' → is_Some (data_lookup w' (primary_name key)) →
        (missing_primaries w' < n)%nat)).
      * intros u u' Hu G w' G'. apply Hu. by apply (grows_trans _ u').
      * intros u Hu. by apply fine_sync_missing_step.
      * intros w' G' Hs.
        assert (Gw : grows w v1) by by apply (grows_trans _ v).
        pose proof (grows_missing_le _ _ Gw).
        enough (missing_primaries w' < missing_primaries v1)%nat by lia.
        apply (grows_missing_lt _ _ key); [done| |by rewrite <- He|done].
        by rewrite (grows_persisted_keys _ _ Gw).
  - eauto using grows_trans.
Qed.

End RecursiveCall.

(** With more fuel than missing primaries the pass does not depend on the
    fuel, does not exhaust it, and removes nothing. *)
Lemma sync_replication_fine (f1 : nat) : ∀ (f2 : nat) (w : World),
  (missing_primaries w < f1)%nat → (missing_primaries w < f2)%nat →
  fine (sync_replication f1) (sync_replication f2) w.
Proof.
  induction f1 as [|f1 IH]; intros [|f2] w H1 H2; try lia. simpl.
  apply (fine_sync_body (f1 `min` f2)); [|lia].
  intros v Hv. apply IH; lia.
Qed.

(** * The sync pass when no primary is missing *)

Lemma keeps_refl w : keeps w w.
Proof. by split; [|split]. Qed.

Lemma keeps_trans w1 w2 w3 : keeps w1 w2 → keeps w2 w3 → keeps w1 w3.
Proof.
  intros (F1 & M1 & D1) (F2 & M2 & D2).
  split; [congruence|]. split; [congruence|]. intros k. by rewrite D2.
Qed.

Lemma sync_present_step_keeps key a w :
  ∃ w', sync_present_step key a w = (Ok tt, w') ∧ keeps w w'.
Proof.
  unfold sync_present_step, bind, gets, data_exists, data_read, data_write,
    modify, ret.
  destruct (data_dir w) as [d|] eqn:Ed; simpl.
  - destruct (d !! replica_name key (rep_count w)) as [b|] eqn:Eb; simpl.
    + rewrite Ed, Eb, bool_decide_eq_true_2 by done. rewrite Ed, Eb.
      case_bool_decide; rewrite ?Ed; eexists; (split; [done|]).
      * split; [done|]. split; [done|]. intros k.
        unfold data_lookup. simpl. rewrite Ed.
        apply lookup_insert_ne, replica_primary_ne.
      * split; [done|]. split; [done|]. intros k. done.
    + rewrite Ed, Eb, bool_decide_eq_false_2 by (by intros [? ?]).
      eexists. split; [done|]. by split; [|split].
  - rewrite Ed. eexists. split; [done|]. by split; [|split].
Qed.

Lemma repeat_present_keeps n key a : ∀ w,
  ∃ w', repeat_n n (sync_present_step key a) w = (Ok tt, w') ∧ keeps w w'.
Proof.
  induction n as [|n IH]; intros w; simpl.
  - exists w. split; [done | apply keeps_refl].
  - destruct (sync_present_step_keeps key a w) as (w1 & E1 & K1).
    destruct (IH w1) as (w2 & E2 & K2).
    exists w2. run E1. split; [done|]. by apply (keeps_trans _ w1).
Qed.

Lemma sync_keys_keeps (self_call : M unit) (max_files : nat) (keys : list nat) :
  ∀ w,
  (∀ k, k ∈ keys → is_Some (data_lookup w (primary_name k))) →
  ∃ w',
    for_each keys (λ key,
      modify (set_rep_count 1%nat) ;;;
      let* e := data_exists (primary_name key) in
      if e then
        let* a := data_read (primary_name key) in
        repeat_n (S max_files) (sync_present_step key a)
      else
        repeat_n (S max_files) (sync_missing_step self_call key)) w
    = (Ok tt, w') ∧ keeps w w'.
Proof.
  induction keys as [|key keys IH]; intros w Hall.
  - exists w. split; [done | apply keeps_refl].
  - destruct (Hall key) as [a Ha]; [by left|].
    set (w1 := set_rep_count 1%nat w).
    assert (Ha1 : data_lookup w1 (primary_name key) = Some a) by done.
    destruct (repeat_present_keeps (S max_files) key (universal_newlines a) w1)
      as (w2 & E2 & K2).
    assert (K12 : keeps w w2).
    { apply (keeps_trans _ w1); [by split; [|split] | done]. }
    destruct (IH w2) as (w3 & E3 & K3).
    { intros k Hk. destruct K12 as (_ & _ & D). rewrite D. apply Hall. by right. }
    exists w3. split; [|by apply (keeps_trans _ w2)].
    cbn [for_each]. unfold bind at 1. unfold bind at 1.
    unfold modify at 1. fold w1.
    unfold bind at 1, data_exists at 1, gets at 1.
    unfold data_lookup in Ha1. destruct (data_dir w1) as [d|] eqn:Ed; [|done].
    rewrite bool_decide_eq_true_2 by (by rewrite Ha1).
    unfold bind at 1, data_read at 1. rewrite Ed, Ha1.
    rewrite E2. exact E3.
Qed.

Lemma sync_replication_all_present (fuel : nat) (w : World) :
  is_Some (data_dir w) →
  (∀ k, k ∈ persisted_keys w → is_Some (data_lookup w (primary_name k))) →
  ∃ w',
    sync_replication (S fuel) w = (Ok tt, w') ∧
    mapfile w' = mapfile w ∧
    mapping w' = default [] (mapfile w) ∧
    ∀ k, data_lookup w' (primary_name k) = data_lookup w (primary_name k).
Proof.
  intros [d Hd] Hall.
  set (m := default [] (mapfile w)).
  set (w1 := set_mapping m w).
  destruct (sync_keys_keeps (sync_replication fuel)
              (length (filter (λ name, isfile w1 name = true) (elements (dom d))))
              (sorted_keys m) w1) as (w' & E & F & Mp & D).
  { intros k Hk. by apply Hall. }
  exists w'. split; [|done].
  cbn [sync_replication]. unfold sync_body.
  unfold bind at 1, load_map at 1, gets at 1. fold m.
  unfold bind at 1, modify at 1. fold w1.
  unfold bind at 1, count_files at 1.
  change (data_dir w1) with (data_dir w). rewrite Hd. exact E.
Qed.

(** * Removing a shard *)

Lemma remove_primaries_spec (keys : list nat) : ∀ w,
  NoDup keys →
  (∀ k, k ∈ keys → is_Some (data_lookup w (primary_name k))) →
  ∃ w',
    remove_primaries keys w = (Ok false, w') ∧
    mapfile w' = mapfile w ∧ mapping w' = mapping w ∧
    (∀ k, k ∈ keys → data_lookup w' (primary_name k) = None) ∧
    (∀ name, (∀ k, k ∈ keys → name ≠ primary_name k) →
             data_lookup w' name = data_lookup w name).
Proof.
  induction keys as [|key keys IH]; intros w Hnd Hall.
  - exists w. repeat split; try done. intros k Hk. by apply elem_of_nil in Hk.
  - apply NoDup_cons in Hnd as [Hnotin Hnd].
    destruct (Hall key) as [a Ha]; [by left|].
    unfold data_lookup in Ha. destruct (data_dir w) as [d|] eqn:Ed; [|done].
    set (w1 := set_data (Some (delete (primary_name key) d)) w).
    assert (L1 : ∀ name, name ≠ primary_name key →
                         data_lookup w1 name = data_lookup w name).
    { intros name Hne. unfold data_lookup. simpl. rewrite Ed.
      by apply lookup_delete_ne. }
    destruct (IH w1 Hnd) as (w' & E & F & Mp & Gone & Same).
    { intros k Hk. rewrite L1; [apply Hall; by right|].
      intros Heq. apply primary_name_inj in Heq. by subst. }
    exists w'. split.
    { cbn [remove_primaries].
      unfold bind at 1, data_exists at 1, gets at 1. rewrite Ed.
      rewrite bool_decide_eq_true_2 by (by rewrite Ha).
      unfold bind at 1, data_remove at 1. rewrite Ed, Ha. exact E. }
    split; [done|]. split; [done|]. split.
    + intros k Hk. apply elem_of_cons in Hk as [->|Hk]; [|by apply Gone].
      rewrite Same.
      * unfold data_lookup. simpl. apply lookup_delete_eq.
      * intros k Hk Heq. apply primary_name_inj in Heq. by subst.
    + intros name Hn. rewrite Same.
      * apply L1, Hn. by left.
      * intros k Hk. apply Hn. by right.
Qed.

Lemma max_list_perm_seq (keys : list nat) (N : nat) :
  keys ≡ₚ seq 0 (S N) → max_list keys = N.
Proof.
  intros Hp.
  assert (Hin : N ∈ keys) by (rewrite Hp, elem_of_seq; lia).
  pose proof (max_list_elem_of_le _ _ Hin) as Hle.
  assert (Hne : keys ≠ []) by (intros ->; by apply elem_of_nil in Hin).
  pose proof (max_list_elem_of keys Hne) as Hmax.
  assert (Hsub : ∀ x, x ∈ keys → x ∈ seq 0 (S N)) by (intros x; by rewrite Hp).
  apply Hsub, elem_of_seq in Hmax. lia.
Qed.

Lemma sorted_keys_perm (m : Mapping) : sorted_keys m ≡ₚ int_keys m.
Proof. apply merge_sort_Permutation. Qed.

Lemma set_mapping_same (w : World) : set_mapping (mapping w) w = w.
Proof. by destruct w. Qed.

(** What [remove_shard] does on an index of [N >= 2] shards whose keys are
    [0 .. N-1] in the order of the index, with the primaries [vals] in that
    order: the text it re-splits is what reading the primaries in index order
    gives. *)
Lemma remove_shard_spec (fuel N : nat) (w : World) (vals : list text) :
  (2 ≤ N)%nat →
  mapfile w = Some (mapping w) →
  int_keys (mapping w) ≡ₚ seq 0 N →
  Forall2 (λ k v, data_lookup w (primary_name k) = Some v)
          (int_keys (mapping w)) vals →
  ∃ news w',
    load_data_from_shards w =
      (Ok (concat (universal_newlines <$> vals)), w) ∧
    py_max (persisted_keys w) w = (Ok (N - 1)%nat, w) ∧
    remove_shard (S fuel) w = (Ok None, w') ∧
    int_keys (mapping w') = seq 0 (N - 1) ∧
    mapfile w' = Some (mapping w') ∧
    length news = (N - 1)%nat ∧
    concat news = concat (universal_newlines <$> vals) ∧
    (∀ i x, news !! i = Some x →
            data_lookup w' (primary_name i) = Some x) ∧
    data_lookup w' (primary_name (N - 1)) = None ∧
    load_data_from_shards w' =
      (Ok (concat (universal_newlines <$> vals)), w').
Proof.
  intros HN Hmf Hperm Hvals.
  set (m := mapping w) in *.
  set (keys := sorted_keys m).
  set (corpus := concat (universal_newlines <$> vals)).
  assert (Hkeys : keys ≡ₚ seq 0 N) by (unfold keys; by rewrite sorted_keys_perm).
  assert (Hpk : persisted_keys w = keys) by (unfold persisted_keys; by rewrite Hmf).
  assert (Hall : ∀ k, (k < N)%nat → is_Some (data_lookup w (primary_name k))).
  { intros k Hk.
    assert (Hin : k ∈ int_keys m) by (rewrite Hperm, elem_of_seq; lia).
    apply list_elem_of_lookup in Hin as [i Hi].
    destruct (Forall2_lookup_l _ _ _ _ _ Hvals Hi) as (v & _ & Hv). eauto. }
  (* the corpus before the call *)
  assert (Edata : load_data_from_shards w = (Ok corpus, w)).
  { unfold load_data_from_shards, bind at 1, gets. fold m.
    run (read_shards_eq _ _ _ Hvals). done. }
  (* the deletions *)
  destruct (remove_primaries_spec keys w) as (w2 & E2 & F2 & M2 & Gone & Same).
  { rewrite Hkeys. apply NoDup_seq. }
  { intros k Hk. apply Hall. rewrite Hkeys, elem_of_seq in Hk. lia. }
  (* the new count *)
  destruct N as [|N']; [lia|]. replace (S N' - 1)%nat with N' by lia.
  assert (Emax : ∀ v, py_max keys v = (Ok N', v)).
  { intros v. unfold py_max. rewrite (max_list_perm_seq keys N' Hkeys).
    destruct keys eqn:Ek; [|done].
    apply Permutation_nil_l in Hkeys. discriminate. }
  (* the new split *)
  destruct (generate_sharded_data_spec (Z.of_nat N') corpus w2)
    as (shards & G & Hlen & Hcat & _ & _); [lia|].
  rewrite Nat2Z.id in Hlen.
  pose proof (reread_split vals shards Hcat) as Hclean.
  set (w3 := set_mapfile None w2).
  set (w4 := set_mapping [] w3).
  destruct (write_shards_from_spec shards 0 w4) as (w5 & E5 & K5 & F5 & _ & _ & L5 & U5);
    [done|].
  simpl in K5. rewrite Hlen in K5.
  set (w6 := set_mapfile (Some (mapping w5)) w5).
  assert (Hpres : ∀ k, (k < N')%nat →
                       is_Some (data_lookup w6 (primary_name k))).
  { intros k Hk. destruct (lookup_lt_is_Some_2 shards k) as [x Hx]; [lia|].
    exists x. by apply (L5 k x). }
  destruct (sync_replication_all_present fuel w6) as (w7 & E7 & F7 & M7 & D7).
  { destruct (Hpres 0%nat) as [x Hx]; [lia|]. unfold data_lookup in Hx.
    by destruct (data_dir w6). }
  { intros k Hk. apply Hpres.
    unfold persisted_keys, w6 in Hk. simpl in Hk.
    rewrite sorted_keys_perm, K5, elem_of_seq in Hk. lia. }
  simpl in F7, M7.
  exists shards, w7.
  split; [done|]. split; [by rewrite Hpk|]. split.
  { unfold remove_shard.
    unfold bind at 1, load_map at 1, gets at 1. rewrite Hmf. simpl default.
    unfold bind at 1, modify at 1.
    replace (set_mapping m w) with w by (symmetry; apply set_mapping_same).
    run Edata. fold m. fold keys. run E2. cbv beta iota. run (Emax w2). run G.
    unfold bind at 1, remove_mapfile at 1. rewrite F2, Hmf. fold w3.
    unfold bind at 1, load_map at 1, gets at 1. simpl default.
    unfold bind at 1, modify at 1. fold w4.
    unfold write_shards, enumerate. run E5.
    unfold bind at 1, write_map at 1, modify at 1. fold w6.
    run E7. done. }
  split; [by rewrite M7|]. split; [by rewrite F7, M7|].
  split; [done|]. split; [done|]. split.
  { intros i x Hx. rewrite D7. by apply (L5 i x). }
  split.
  { rewrite D7. unfold w6. change (data_lookup (set_mapfile _ w5)) with (data_lookup w5).
    rewrite U5.
    - change (data_lookup w4) with (data_lookup w2). apply Gone.
      rewrite Hkeys, elem_of_seq. lia.
    - intros i Hi Heq. apply primary_name_inj in Heq. simpl in Heq. lia. }
  assert (Hnew : Forall2 (λ k v, data_lookup w7 (primary_name k) = Some v)
                         (seq 0 N') shards).
  { apply Forall2_same_length_lookup. split; [by rewrite length_seq|].
    intros i k v Hk Hv. apply lookup_seq in Hk as [-> _]. simpl.
    rewrite D7. by apply (L5 i v). }
  unfold load_data_from_shards, bind at 1, gets. rewrite M7, K5.
  run (read_shards_eq _ _ _ Hnew). by rewrite Hclean, Hcat.
Qed.

(** * The level probe of [add_replication] and [remove_replication] *)

Lemma probe_levels_enough (key : nat) (d : gmap string text) :
  ∀ (fuel : nat) (X : gset string) (w : World),
  data_dir w = Some d →
  (∀ r, (rep_count w ≤ r)%nat → is_Some (d !! replica_name key r) →
        replica_name key r ∈ X) →
  (size X < fuel)%nat →
  ∃ w', probe_levels fuel key w = (Ok tt, w') ∧ data_dir w' = Some d.
Proof.
  induction fuel as [|fuel IH]; intros X w Hd HX Hsz; [lia|].
  cbn [probe_levels].
  unfold bind at 1, gets at 1. unfold bind at 1, data_exists, gets.
  rewrite Hd. case_bool_decide as Hex; [|by exists w].
  unfold bind at 1, modify at 1.
  set (name := replica_name key (rep_count w)) in *.
  assert (Hin : name ∈ X) by (by apply HX).
  apply (IH (X ∖ {[name]})); [done| |].
  - intros r Hr Hs. simpl in Hr. apply elem_of_difference. split.
    + apply HX; [lia | done].
    + rewrite elem_of_singleton. intros Heq.
      apply replica_name_inj in Heq as [_ Heq]. lia.
  - rewrite size_difference by (by apply singleton_subseteq_l).
    rewrite size_singleton.
    assert (size X ≠ 0%nat).
    { intros Hz. apply size_empty_inv in Hz. set_solver. }
    lia.
Qed.

(** The probing loop always stops: it climbs over distinct entries of
    [data/], of which there are finitely many. *)
Lemma probe_levels_total (key : nat) (w : World) :
  ∃ w', (let* f := probe_fuel in probe_levels f key) w = (Ok tt, w').
Proof.
  unfold bind at 1, probe_fuel, gets.
  destruct (data_dir w) as [d|] eqn:Hd.
  - destruct (probe_levels_enough key d (S (size d)) (dom d) w) as (w' & E & _);
      [done| |rewrite size_dom; lia|by exists w'].
    intros r _ Hs. by apply elem_of_dom.
  - exists w. cbn [probe_levels].
    unfold bind at 1, gets at 1. unfold bind at 1, data_exists, gets.
    by rewrite Hd.
Qed.

(** * The claims *)

(** C1 (the code departs from it): after [build_shards(5, "ABCDEFGHIJ")] from
    an empty mapping the persisted ranges should be [0,2), [2,4), [4,6),
    [6,8), [8,10), each as long as its shard. The code persists (0,2), (3,4),
    (5,6), (7,8), (9,10): from shard 1 on, the start is one past the previous
    end and [end - start] is one less than the two characters stored. *)
Theorem build_shards_ranges_have_gaps :
  fst built_five = Ok None ∧
  mapfile (snd built_five) =
    Some [(0%nat, mkRange 0 2); (1%nat, mkRange 3 4); (2%nat, mkRange 5 6);
          (3%nat, mkRange 7 8); (4%nat, mkRange 9 10)] ∧
  data_lookup (snd built_five) (primary_name 1) = Some (T "CD") ∧
  (∃ r, get (mapping (snd built_five)) 1 = Some r ∧
        start r ≠ 2 ∧ end_ r - start r ≠ len (T "CD")).
Proof.
  split; [by vm_compute|]. split; [by vm_compute|]. split; [by vm_compute|].
  exists (mkRange 3 4). split; [by vm_compute|]. split; by vm_compute.
Qed.

(** C2: for a positive count not above the corpus length and an empty
    in-memory mapping, [build_shards] writes exactly [count] primaries
    [0 .. count-1] and leaves every other file alone; the stored contents in
    ascending shard order concatenate to the corpus; every shard but the last
    has [len // count] characters and the last has that plus [len % count].
    Reading the shards back with [load_data_from_shards] gives the stored
    contents as text-mode reading translates them, which is the corpus itself
    when it holds no carriage return. *)
Theorem build_shards_reconstructs (count : Z) (corpus : text) (w : World) :
  0 < count → count ≤ len corpus → mapping w = [] →
  ∃ shards w',
    build_shards count corpus w = (Ok None, w') ∧
    length shards = Z.to_nat count ∧
    int_keys (mapping w') = seq 0 (Z.to_nat count) ∧
    mapfile w' = Some (mapping w') ∧
    (∀ i x, shards !! i = Some x →
            data_lookup w' (primary_name i) = Some x) ∧
    (∀ name, (∀ i, (i < Z.to_nat count)%nat → name ≠ primary_name i) →
             data_lookup w' name = data_lookup w name) ∧
    concat shards = corpus ∧
    (∀ i x, shards !! i = Some x → (S i < Z.to_nat count)%nat →
            len x = len corpus / count) ∧
    (∀ i x, shards !! i = Some x → S i = Z.to_nat count →
            len x = len corpus / count + len corpus mod count) ∧
    load_data_from_shards w' =
      (Ok (concat (universal_newlines <$> shards)), w') ∧
    (CR ∉ corpus → load_data_from_shards w' = (Ok corpus, w')).
Proof.
  intros Hc _ Hm.
  destruct (build_shards_spec count corpus w Hc Hm)
    as (shards & w' & E & Hlen & Hcat & Hbase & Hlast & K & F & _ & L & U & R).
  exists shards, w'. repeat (split; [assumption|]).
  intros Hcr. rewrite R, fmap_universal_newlines_id, Hcat; [done|].
  intros x Hx. apply (no_cr_concat shards); [by rewrite Hcat | done].
Qed.

Lemma build_shards_reconstructs_witness :
  ∃ shards w',
    build_shards 5 (T "ABCDEFGHIJK") fresh_world = (Ok None, w') ∧
    length shards = 5%nat ∧
    (∀ i x, shards !! i = Some x →
            data_lookup w' (primary_name i) = Some x) ∧
    concat shards = T "ABCDEFGHIJK".
Proof.
  destruct (build_shards_reconstructs 5 (T "ABCDEFGHIJK") fresh_world)
    as (shards & w' & E & Hlen & _ & _ & L & _ & Hcat & _);
    [lia | by vm_compute | reflexivity |].
  exists shards, w'. repeat split; assumption.
Defined.

(** C7: on a non-empty in-memory mapping [build_shards] returns its refusal
    message at once, whatever the count and the corpus, and the world (object
    fields, index file and shard files) is unchanged. *)
Theorem build_shards_refuses_when_sharded
    (count : Z) (corpus : text) (w : World) :
  mapping w ≠ [] →
  build_shards count corpus w = (Ok (Some already_sharded), w).
Proof.
  intros Hm. unfold build_shards, bind, gets.
  by rewrite bool_decide_eq_true_2.
Qed.

Lemma build_shards_refuses_when_sharded_witness :
  build_shards 3 (T "ABCDEF") sharded_world
  = (Ok (Some already_sharded), sharded_world).
Proof.
  apply (build_shards_refuses_when_sharded 3 (T "ABCDEF") sharded_world).
  discriminate.
Defined.

(** C9: for every handler, [get_shard_data(0)] takes the branch of a
    missing argument: it returns the handler's whole mapping, which is what
    [get_all_shard_data()] returns and what [get_shard_data(None)] returns,
    and not the entry of shard 0; the handler is left as it was. *)
Theorem get_shard_data_zero_is_all (w : World) :
  get_shard_data (PyInt 0) w = (Ok (AllShardData (mapping w)), w) ∧
  get_all_shard_data w = (Ok (mapping w), w) ∧
  get_shard_data PyNone w = (Ok (AllShardData (mapping w)), w) ∧
  ∀ r, get_shard_data (PyInt 0) w ≠ (Ok (ShardInfo (PyInt 0) r), w).
Proof. repeat split; done. Qed.

(** C8, the claim as stated fails, in two ways. On the two shards left by
    [build_shards(2, "A\rB\r")], whose primaries hold ["A\r"] and ["B\r"],
    [remove_shard] returns and leaves one primary holding ["A\nB\n"]: the
    text was read in text mode, so the new corpus is not the stored one. On
    two shards ["AB"] and ["CD"] under an index that lists shard 1 first,
    [remove_shard] returns and leaves one primary holding ["CDAB"]: the text
    was read in the order of the index, not in ascending order. *)
Lemma remove_shard_changes_corpus :
  (mapfile two_shards_cr = Some (mapping two_shards_cr) ∧
   int_keys (mapping two_shards_cr) = [0%nat; 1%nat] ∧
   data_lookup two_shards_cr (primary_name 0) = Some ["A"%char; CR] ∧
   data_lookup two_shards_cr (primary_name 1) = Some ["B"%char; CR] ∧
   fst (remove_shard 1 two_shards_cr) = Ok None ∧
   int_keys (mapping (snd (remove_shard 1 two_shards_cr))) = [0%nat] ∧
   data_lookup (snd (remove_shard 1 two_shards_cr)) (primary_name 0)
     = Some ["A"%char; LF; "B"%char; LF] ∧
   ["A"%char; LF; "B"%char; LF] ≠ ["A"%char; CR] ++ ["B"%char; CR]) ∧
  (mapfile two_shards_permuted = Some (mapping two_shards_permuted) ∧
   int_keys (mapping two_shards_permuted) = [1%nat; 0%nat] ∧
   data_lookup two_shards_permuted (primary_name 0) = Some (T "AB") ∧
   data_lookup two_shards_permuted (primary_name 1) = Some (T "CD") ∧
   fst (remove_shard 1 two_shards_permuted) = Ok None ∧
   int_keys (mapping (snd (remove_shard 1 two_shards_permuted))) = [0%nat] ∧
   data_lookup (snd (remove_shard 1 two_shards_permuted)) (primary_name 0)
     = Some (T "CDAB") ∧
   T "CDAB" ≠ T "AB" ++ T "CD").
Proof. repeat apply conj; by vm_compute. Qed.

(** C8 as amended: on an index of [N >= 2] shards that lists the keys
    [0 .. N-1] in ascending order and is the one the object holds, with the
    primaries [olds] on disk, [remove_shard] computes the new count
    [max(keys) = N - 1], runs to its end, and leaves the shards [0 .. N-2]
    in ascending order in the mapping and on disk, holding [news], with the
    primary of shard [N-1] gone. The new primaries in ascending order
    concatenate to the old ones in ascending order as text-mode reading gives
    them, hence to the old ones themselves when these hold no carriage
    return; [load_data_from_shards] returns that text before and after the
    call. The fuel is that of the final sync pass, which needs one level
    only. *)
Theorem remove_shard_shrinks_by_one
    (fuel N : nat) (w : World) (olds : list text) :
  (2 ≤ N)%nat →
  mapfile w = Some (mapping w) →
  int_keys (mapping w) = seq 0 N →
  length olds = N →
  (∀ i x, olds !! i = Some x → data_lookup w (primary_name i) = Some x) →
  ∃ news w',
    py_max (persisted_keys w) w = (Ok (N - 1)%nat, w) ∧
    remove_shard (S fuel) w = (Ok None, w') ∧
    int_keys (mapping w') = seq 0 (N - 1) ∧
    mapfile w' = Some (mapping w') ∧
    length news = (N - 1)%nat ∧
    (∀ i x, news !! i = Some x →
            data_lookup w' (primary_name i) = Some x) ∧
    data_lookup w' (primary_name (N - 1)) = None ∧
    concat news = concat (universal_newlines <$> olds) ∧
    (CR ∉ concat olds → concat news = concat olds) ∧
    load_data_from_shards w =
      (Ok (concat (universal_newlines <$> olds)), w) ∧
    load_data_from_shards w' =
      (Ok (concat (universal_newlines <$> olds)), w').
Proof.
  intros HN Hmf Hk Hlen Holds.
  destruct (remove_shard_spec fuel N w olds HN Hmf)
    as (news & w' & B & Mx & E & K & F & Ln & Hcat & L & Gone & A).
  { by rewrite Hk. }
  { rewrite Hk. apply Forall2_same_length_lookup.
    split; [by rewrite length_seq|].
    intros i k v Hi Hv. apply lookup_seq in Hi as [-> _]. by apply Holds. }
  exists news, w'. repeat (split; [assumption|]).
  split; [|by split].
  intros Hcr. rewrite Hcat. f_equal. apply fmap_universal_newlines_id.
  intros x Hx. by apply (no_cr_concat olds).
Qed.

Lemma remove_shard_shrinks_by_one_witness :
  ∃ w',
    remove_shard 1 two_shards = (Ok None, w') ∧
    int_keys (mapping w') = seq 0 1 ∧
    data_lookup w' (primary_name 0) = Some (T "ABCD") ∧
    data_lookup w' (primary_name 1) = None.
Proof.
  destruct (remove_shard_shrinks_by_one 0 2 two_shards [T "AB"; T "CD"])
    as (news & w' & _ & E & K & _ & Ln & L & Gone & _ & Hcat & _).
  - lia.
  - by vm_compute.
  - by vm_compute.
  - reflexivity.
  - intros [|[|i]] x Hx; [| |done]; injection Hx as <-; by vm_compute.
  - exists w'. split; [assumption|]. split; [assumption|].
    split; [|assumption].
    destruct news as [|x [|y news]]; [discriminate Ln| |discriminate Ln].
    rewrite (L 0%nat x eq_refl). f_equal.
    rewrite <- (app_nil_r x). apply Hcat.
    apply (bool_decide_unpack _). by vm_compute.
Defined.

(** C5, the claim as stated fails: [build_shards(3, "AB")] from an empty
    mapping, with a count above the corpus length, raises nothing, writes
    three shards and persists the mapping. *)
Lemma build_shards_accepts_count_above_length :
  mapping fresh_world = [] ∧
  len (T "AB") < 3 ∧
  fst built_three_of_two = Ok None ∧
  data_lookup (snd built_three_of_two) (primary_name 2) = Some (T "AB") ∧
  mapfile (snd built_three_of_two) ≠ mapfile fresh_world ∧
  ¬ ∃ e, built_three_of_two = (Raise e, fresh_world).
Proof.
  split; [done|]. split; [by vm_compute|]. split; [by vm_compute|].
  split; [by vm_compute|]. split; [by vm_compute|].
  intros [e He]. apply (f_equal fst) in He. by vm_compute in He.
Qed.

Lemma concat_all_nil {A} (l : list (list A)) :
  (∀ i x, l !! i = Some x → x = []) → concat l = [].
Proof.
  induction l as [|y l IH]; intros H; [done|]. simpl.
  rewrite (H 0%nat y eq_refl), IH; [done|].
  intros i x Hx. by apply (H (S i)).
Qed.

(** C5 as amended: [build_shards] on an empty in-memory mapping does not
    validate the count. A count of zero raises [ZeroDivisionError] before
    anything is written. A negative count raises nothing, writes no shard
    and persists the empty mapping. A count above the corpus length raises
    nothing and writes [count] shards, all empty but the last, which holds
    the whole corpus, and persists their mapping. *)
Theorem build_shards_count_policy (count : Z) (corpus : text) (w : World) :
  mapping w = [] →
  (count = 0 →
     build_shards count corpus w = (Raise ZeroDivisionError, w)) ∧
  (count < 0 →
     build_shards count corpus w = (Ok None, set_mapfile (Some []) w)) ∧
  (len corpus < count →
     ∃ w',
       build_shards count corpus w = (Ok None, w') ∧
       int_keys (mapping w') = seq 0 (Z.to_nat count) ∧
       mapfile w' = Some (mapping w') ∧
       (∀ i, (S i < Z.to_nat count)%nat →
             data_lookup w' (primary_name i) = Some []) ∧
       data_lookup w' (primary_name (Z.to_nat count - 1)) = Some corpus).
Proof.
  intros Hm. split; [|split].
  - intros ->. unfold build_shards, bind, gets. by rewrite Hm.
  - intros Hneg. unfold build_shards, bind, gets. rewrite Hm. simpl.
    unfold _generate_sharded_data.
    destruct (Z.eqb_spec count 0) as [|_]; [lia|].
    pose proof (Z.mod_neg_bound (len corpus) count Hneg) as Hr.
    destruct (Z.ltb_spec 0 (len corpus `mod` count)) as [|_]; [lia|].
    unfold py_range. rewrite Z2Nat.nonpos by lia. simpl.
    unfold write_map, modify. by rewrite Hm.
  - intros Hlt.
    assert (Hlen0 : 0 ≤ len corpus) by (unfold len; lia).
    assert (Hc : 0 < count) by lia.
    destruct (build_shards_spec count corpus w Hc Hm)
      as (shards & w' & E & Hlen & Hcat & Hbase & Hlast & K & F & _ & L & _).
    rewrite Z.div_small in Hbase, Hlast by lia.
    exists w'. split; [done|]. split; [done|]. split; [done|].
    assert (Hnil : ∀ i x, shards !! i = Some x →
                          (S i < Z.to_nat count)%nat → x = []).
    { intros i x Hx Hi. apply nil_length_inv.
      specialize (Hbase i x Hx Hi). unfold len in Hbase. lia. }
    split.
    + intros i Hi.
      destruct (lookup_lt_is_Some_2 shards i) as [x Hx]; [lia|].
      rewrite (L i x Hx). f_equal. by apply (Hnil i).
    + set (n := (Z.to_nat count - 1)%nat).
      destruct (lookup_lt_is_Some_2 shards n) as [x Hx]; [unfold n; lia|].
      rewrite (L n x Hx). f_equal.
      rewrite <- Hcat, <- (take_drop n shards), concat_app.
      rewrite (drop_S _ _ _ Hx), drop_ge by (unfold n; lia).
      rewrite concat_all_nil; [simpl; by rewrite app_nil_r|].
      intros i y Hy. apply lookup_take_Some in Hy as [Hy Hi].
      apply (Hnil i y Hy). unfold n in Hi. lia.
Qed.

Lemma build_shards_count_policy_witness :
  build_shards 0 (T "AB") fresh_world = (Raise ZeroDivisionError, fresh_world).
Proof.
  destruct (build_shards_count_policy 0 (T "AB") fresh_world) as [H _].
  - reflexivity.
  - apply H. reflexivity.
Defined.

(** C10: the fuel of [sync_replication] is the depth of its recursion, and
    one more than the number of persisted shards whose primary is missing is
    always enough: with that much fuel the pass returns (a value or an
    exception, never a fuel shortage), and more fuel changes nothing. Every
    recursive call is made after a primary was written for a shard that had
    none when its turn came, so it starts with fewer missing primaries. *)
Theorem sync_replication_terminates (fuel : nat) (w : World) :
  (missing_primaries w < fuel)%nat →
  fst (sync_replication fuel w) ≠ OutOfFuel ∧
  sync_replication fuel w = sync_replication (S (missing_primaries w)) w.
Proof.
  intros H.
  destruct (sync_replication_fine fuel (S (missing_primaries w)) w H)
    as (E & NF & _); [lia|]. done.
Qed.

Lemma sync_replication_terminates_witness :
  fst (sync_replication 2 lost_primary) ≠ OutOfFuel ∧
  sync_replication 2 lost_primary
  = sync_replication (S (missing_primaries lost_primary)) lost_primary.
Proof.
  apply (sync_replication_terminates 2 lost_primary).
  vm_compute. lia.
Defined.

(** C3 (the code departs from it): shard 0 has range (0, 2), no primary, a
    level-1 replica of the wrong length and exactly one replica of the right
    length, at level 2. The sync pass should restore the primary from the
    level-2 replica. It probes level 1 only, because its bound counts the
    entries of [data/] that are files of the working directory, here none:
    the pass returns and the primary is still missing. *)
Theorem sync_does_not_restore_from_level_two (fuel : nat) :
  get (default [] (mapfile lost_primary)) 0 = Some (mkRange 0 2) ∧
  data_lookup lost_primary (primary_name 0) = None ∧
  data_lookup lost_primary (replica_name 0 1) = Some (T "X") ∧
  data_lookup lost_primary (replica_name 0 2) = Some (T "AB") ∧
  len (T "AB") = 2 - 0 ∧
  count_files lost_primary = (Ok 0%nat, lost_primary) ∧
  fst (sync_replication (S (S fuel)) lost_primary) = Ok tt ∧
  data_lookup (snd (sync_replication (S (S fuel)) lost_primary))
              (primary_name 0) = None.
Proof.
  assert (Hm : missing_primaries lost_primary = 1%nat) by by vm_compute.
  destruct (sync_replication_fine (S (S fuel)) 2 lost_primary) as (E & _);
    [lia..|].
  rewrite E. repeat apply conj; by vm_compute.
Qed.

Example sync_does_not_restore_lone_level_two :
  fst (sync_replication 2 lost_primary_lone_level_two) = Ok tt ∧
  data_lookup (snd (sync_replication 2 lost_primary_lone_level_two))
              (primary_name 0) = None.
Proof. repeat apply conj; by vm_compute. Qed.

(** The same loss is repaired when the intact replica is at level 1. *)
Example sync_restores_from_level_one :
  fst (sync_replication 2 lost_primary_level_one) = Ok tt ∧
  data_lookup (snd (sync_replication 2 lost_primary_level_one))
              (primary_name 0) = Some (T "AB") ∧
  mapfile (snd (sync_replication 2 lost_primary_level_one))
  = mapfile lost_primary_level_one.
Proof. repeat apply conj; by vm_compute. Qed.

(** C4 (the code departs from it): [build_shards(2, "ABCDEF")], two calls of
    [add_replication], [add_shard], then [add_replication] followed by
    [sync_replication]. Every call returns. Shard 0 now holds "AB", and its
    level-2 replica, which exists, still holds "ABC": the sync pass probed
    level 1 only. *)
Theorem sync_leaves_level_two_stale :
  fst (replicate_twice_then_reshard fresh_world) = Ok tt ∧
  data_lookup (snd (replicate_twice_then_reshard fresh_world))
              (primary_name 0) = Some (T "AB") ∧
  data_lookup (snd (replicate_twice_then_reshard fresh_world))
              (replica_name 0 1) = Some (T "AB") ∧
  data_lookup (snd (replicate_twice_then_reshard fresh_world))
              (replica_name 0 2) = Some (T "ABC") ∧
  count_files (snd (replicate_twice_then_reshard fresh_world))
  = (Ok 0%nat, snd (replicate_twice_then_reshard fresh_world)).
Proof. repeat apply conj; by vm_compute. Qed.

(** C6 (the code departs from it): [add_replication] ends with the
    expression [self.sync_replication], which calls nothing. From a world
    whose level-1 replica drifted, it writes level 2 and returns with the
    drift in place; a sync pass run afterwards repairs it, so no pass was run
    by the method. *)
Theorem add_replication_runs_no_sync :
  fst (add_replication drifted_replica) = Ok tt ∧
  data_lookup (snd (add_replication drifted_replica)) (replica_name 0 2)
  = Some (T "AB") ∧
  data_lookup (snd (add_replication drifted_replica)) (replica_name 0 1)
  = Some (T "ZZ") ∧
  data_lookup (snd (sync_replication 1 (snd (add_replication drifted_replica))))
              (replica_name 0 1)
  = Some (T "AB").
Proof. repeat apply conj; by vm_compute. Qed.

(** * Further properties of the methods *)

(** ** The index written by a build *)

Lemma get_update (m : Mapping) (k k' : nat) (r : Range) :
  get (update m k r) k' = if decide (k = k') then Some r else get m k'.
Proof.
  induction m as [|[k0 v] m IH]; simpl.
  - done.
  - destruct (decide (k0 = k)) as [->|Hne]; simpl.
    + by destruct (decide (k = k')).
    + destruct (decide (k0 = k')) as [->|]; [|done].
      by destruct (decide (k = k')); [congruence|].
Qed.

Lemma len_app (x y : text) : len (x ++ y) = len x + len y.
Proof. unfold len. rewrite length_app. lia. Qed.

Lemma write_shards_ranges (l : list text) : ∀ (n : nat) (w : World),
  n ≠ 0%nat →
  ∃ w',
    for_each (enumerate_from n l) (λ '(num, d), _write_shard num d) w
      = (Ok tt, w') ∧
    last_char_position w' = last_char_position w + len (concat l) ∧
    (∀ i x, l !! i = Some x →
       get (mapping w') (n + i)
       = Some (range_at (last_char_position w + len (concat (take i l))) x)) ∧
    (∀ k, (k < n)%nat → get (mapping w') k = get (mapping w) k).
Proof.
  induction l as [|x l IH]; intros n w Hn.
  - exists w. simpl. split; [done|]. split; [unfold len; simpl; lia|].
    split; [|done]. intros i y Hy. by rewrite lookup_nil in Hy.
  - simpl. run (write_shard_eq n x w).
    set (w1 := after_write_shard n x w).
    assert (Hp1 : last_char_position w1 = last_char_position w + len x).
    { unfold w1, after_write_shard. simpl. by destruct (decide (n = 0%nat)). }
    assert (Hg1 : ∀ k, get (mapping w1) k
                       = if decide (n = k) then Some (range_at (last_char_position w) x)
                         else get (mapping w) k).
    { intros k. unfold w1, after_write_shard. cbn [mapping].
      rewrite get_update. by destruct (decide (n = 0%nat)). }
    destruct (IH (S n) w1) as (w' & E & P & G & O); [done|].
    exists w'. split; [done|]. split; [rewrite P, Hp1, len_app; lia|]. split.
    + intros [|i] y Hy; simpl in Hy.
      * injection Hy as <-. rewrite Nat.add_0_r, O, Hg1 by lia.
        destruct (decide (n = n)); [|done]. simpl.
        do 2 f_equal. unfold len. simpl. lia.
      * replace (n + S i)%nat with (S n + i)%nat by lia.
        rewrite (G i y Hy), Hp1. do 2 f_equal. simpl.
        rewrite len_app. lia.
    + intros k Hk. rewrite O, Hg1 by lia.
      by destruct (decide (n = k)); [lia|].
Qed.

Lemma write_shards_ranges_0 (l : list text) (w : World) :
  ∃ w',
    write_shards l w = (Ok tt, w') ∧
    (l ≠ [] → last_char_position w' = len (concat l)) ∧
    (∀ i x, l !! i = Some x →
       get (mapping w') i = Some (range_at (len (concat (take i l))) x)).
Proof.
  unfold write_shards, enumerate. destruct l as [|x l].
  - exists w. split; [done|]. split; [done|].
    intros i y Hy. by rewrite lookup_nil in Hy.
  - simpl. run (write_shard_eq 0 x w).
    set (w1 := after_write_shard 0 x w).
    destruct (write_shards_ranges l 1 w1) as (w' & E & P & G & O); [done|].
    assert (Hp1 : last_char_position w1 = len x) by (by unfold w1).
    exists w'. split; [done|]. split; [intros _; rewrite P, Hp1, len_app; lia|].
    intros [|i] y Hy; simpl in Hy.
    + injection Hy as <-. rewrite O by lia.
      unfold w1, after_write_shard. cbn [mapping]. rewrite get_update. simpl.
      done.
    + change (S i) with (1 + i)%nat.
      rewrite (G i y Hy), Hp1. do 2 f_equal. simpl. rewrite len_app. lia.
Qed.

Lemma len_concat_uniform (l : list text) (b : Z) :
  (∀ j x, l !! j = Some x → len x = b) →
  len (concat l) = Z.of_nat (length l) * b.
Proof.
  induction l as [|y l IH]; intros H; simpl; [unfold len; simpl; lia|].
  rewrite len_app, (H 0%nat y eq_refl), IH; [lia|].
  intros j x Hx. by apply (H (S j)).
Qed.

(** X1: the index a build persists, for a positive count not above the
    corpus length and an empty in-memory mapping. With [b = len // count],
    shard 0 gets [(0, b)], a later shard [i] gets the start [i*b + 1], and
    the end [(i+1)*b], or [len] for the last shard; the running offset ends
    at [len]. The ends are the cumulative lengths; the starts after shard 0
    are one past the previous end. *)
Theorem build_shards_index (count : Z) (corpus : text) (w : World) :
  0 < count → count ≤ len corpus → mapping w = [] →
  ∃ w',
    build_shards count corpus w = (Ok None, w') ∧
    mapfile w' = Some (mapping w') ∧
    last_char_position w' = len corpus ∧
    ∀ i, (i < Z.to_nat count)%nat →
      get (mapping w') i
      = Some {| start := if decide (i = 0%nat) then 0
                         else Z.of_nat i * (len corpus / count) + 1;
                end_ := if decide (S i = Z.to_nat count) then len corpus
                        else (Z.of_nat i + 1) * (len corpus / count) |}.
Proof.
  intros Hc Hle Hm.
  destruct (generate_sharded_data_spec count corpus w Hc)
    as (shards & G & Hlen & Hcat & Hbase & Hlast).
  destruct (write_shards_ranges_0 shards w) as (w1 & E & P & R).
  exists (set_mapfile (Some (mapping w1)) w1).
  split.
  { unfold build_shards, bind at 1, gets. rewrite Hm. simpl.
    run G. run E. done. }
  split; [done|].
  assert (Hne : shards ≠ []).
  { intros ->. simpl in Hlen. lia. }
  split; [simpl; by rewrite P, Hcat|].
  intros i Hi. simpl.
  destruct (lookup_lt_is_Some_2 shards i) as [x Hx]; [lia|].
  rewrite (R i x Hx). f_equal.
  set (b := len corpus `div` count) in *.
  assert (Hb : 0 < b) by (apply Z.div_str_pos; lia).
  assert (HP : len (concat (take i shards)) = Z.of_nat i * b).
  { rewrite (len_concat_uniform _ b).
    - rewrite length_take. f_equal. lia.
    - intros j y Hy. apply lookup_take_Some in Hy as [Hy Hj].
      apply (Hbase j y Hy). lia. }
  unfold range_at. rewrite HP.
  pose proof (Z.div_mod (len corpus) count) as Hdm. fold b in Hdm.
  f_equal.
  - destruct (decide (i = 0%nat)) as [->|]; [done|].
    destruct (Z.eqb_spec (Z.of_nat i * b) 0); [nia | done].
  - destruct (decide (S i = Z.to_nat count)) as [Hl|Hl].
    + rewrite (Hlast i x Hx Hl). fold b. nia.
    + rewrite (Hbase i x Hx) by lia. fold b. lia.
Qed.

Lemma build_shards_index_witness :
  ∃ w',
    build_shards 2 (T "ABCDE") fresh_world = (Ok None, w') ∧
    get (mapping w') 0 = Some (mkRange 0 2) ∧
    get (mapping w') 1 = Some (mkRange 3 5).
Proof.
  destruct (build_shards_index 2 (T "ABCDE") fresh_world)
    as (w' & E & _ & _ & R); [lia | by vm_compute | reflexivity |].
  exists w'. split; [exact E|]. split.
  - apply (R 0%nat). vm_compute. lia.
  - apply (R 1%nat). vm_compute. lia.
Defined.

(** ** Looking a shard up *)

Lemma str_nonempty (n : nat) : str n ≠ "".
Proof.
  unfold str. intros H.
  apply (f_equal NilEmpty.uint_of_string) in H.
  rewrite NilEmpty.usu in H. simpl in H. injection H as H.
  assert (Hn : n = 0%nat).
  { apply (f_equal Nat.of_uint) in H. by rewrite Unsigned.of_to in H. }
  subst n. discriminate H.
Qed.

Lemma get_val_str (m : Mapping) (k : nat) :
  get_val m (PyStr (str k)) = get m k.
Proof.
  induction m as [|[k0 r] m IH]; simpl; [done|].
  destruct (decide (str k0 = str k)) as [E|N].
  - apply str_inj in E. by destruct (decide (k0 = k)).
  - destruct (decide (k0 = k)) as [->|]; [done | exact IH].
Qed.

Lemma get_val_int (m : Mapping) (z : Z) : get_val m (PyInt z) = None.
Proof. by destruct m as [|[k r] m]. Qed.

(** X2: [get_shard_data] finds a shard only under the decimal string of its
    number: with the argument [str(k)], also for ["0"], it returns the entry
    the mapping holds for shard [k], or the invalid-id message listing the
    keys when there is none; with an integer other than 0 it always returns
    the invalid-id message, because the keys are strings. The mapping and
    the disk are left as they are. *)
Theorem get_shard_data_by_key (w : World) :
  (∀ k : nat,
     get_shard_data (PyStr (str k)) w
     = (Ok (match get (mapping w) k with
            | Some r => ShardInfo (PyStr (str k)) r
            | None => InvalidShardId (int_keys (mapping w))
            end), w)) ∧
  (∀ z : Z, z ≠ 0 →
     get_shard_data (PyInt z) w
     = (Ok (InvalidShardId (int_keys (mapping w))), w)).
Proof.
  split.
  - intros k. unfold get_shard_data. simpl.
    rewrite bool_decide_eq_false_2 by apply str_nonempty.
    unfold bind, gets. rewrite get_val_str. by destruct (get (mapping w) k).
  - intros z Hz. unfold get_shard_data. simpl.
    destruct (Z.eqb_spec z 0); [done|].
    unfold bind, gets. by rewrite get_val_int.
Qed.

Lemma get_shard_data_by_key_witness :
  get_shard_data (PyStr "0") sharded_world
  = (Ok (ShardInfo (PyStr "0") (mkRange 0 2)), sharded_world) ∧
  get_shard_data (PyInt 1) sharded_world
  = (Ok (InvalidShardId [0%nat]), sharded_world).
Proof.
  destruct (get_shard_data_by_key sharded_world) as [Hs Hi]. split.
  - exact (Hs 0%nat).
  - apply (Hi 1). lia.
Defined.

(** ** Adding a shard *)

Lemma update_keys_present (m : Mapping) (k : nat) (r : Range) :
  k ∈ int_keys m → int_keys (update m k r) = int_keys m.
Proof.
  unfold int_keys. induction m as [|[k' v] m IH]; csimpl; intros Hk.
  - by apply elem_of_nil in Hk.
  - destruct (decide (k' = k)) as [->|Hne]; csimpl; [done|].
    apply elem_of_cons in Hk as [->|Hk]; [done|]. by rewrite IH.
Qed.

(** The files written by the loop over the shards, whatever the mapping
    held before. *)
Lemma write_shards_files (l : list text) : ∀ (n : nat) (w : World),
  ∃ w',
    for_each (enumerate_from n l) (λ '(num, d), _write_shard num d) w
      = (Ok tt, w') ∧
    mapfile w' = mapfile w ∧
    (∀ i x, l !! i = Some x →
            data_lookup w' (primary_name (n + i)) = Some x) ∧
    (∀ name, (∀ i, (i < length l)%nat → name ≠ primary_name (n + i)) →
             data_lookup w' name = data_lookup w name).
Proof.
  induction l as [|x l IH]; intros n w.
  - exists w. simpl. repeat split; done.
  - simpl. run (write_shard_eq n x w).
    set (w1 := after_write_shard n x w).
    destruct (IH (S n) w1) as (w' & E & F & L & U).
    exists w'. split; [done|]. split; [done|]. split.
    + intros [|i] y Hy; simpl in Hy.
      * injection Hy as <-. rewrite Nat.add_0_r, U.
        { unfold w1. rewrite data_lookup_after_write. by destruct (decide _). }
        intros i _ Heq. apply primary_name_inj in Heq. lia.
      * rewrite Nat.add_succ_r. by apply L.
    + intros name Hn. rewrite U.
      * unfold w1. rewrite data_lookup_after_write.
        destruct (decide _) as [->|]; [|done].
        exfalso. apply (Hn 0%nat); [simpl; lia|]. by rewrite Nat.add_0_r.
      * intros i Hi. replace (S n + i)%nat with (n + S i)%nat by lia.
        apply Hn. simpl. lia.
Qed.

(** The keys after the loop, when the mapping already held [0 .. K-1]. *)
Lemma write_shards_keys (l : list text) : ∀ (n K : nat) (w : World),
  int_keys (mapping w) = seq 0 K → (n ≤ K)%nat →
  int_keys (mapping (snd (for_each (enumerate_from n l)
                            (λ '(num, d), _write_shard num d) w)))
  = seq 0 (K `max` (n + length l)).
Proof.
  induction l as [|x l IH]; intros n K w Hk Hn.
  - simpl. rewrite Hk. f_equal. lia.
  - simpl. run (write_shard_eq n x w).
    set (w1 := after_write_shard n x w).
    destruct (decide (n = K)) as [->|Hne].
    + rewrite (IH (S K) (S K) w1); [f_equal; lia| |done].
      unfold w1, after_write_shard. cbn [mapping].
      rewrite update_keys_fresh, Hk, seq_S; [done|].
      rewrite Hk, elem_of_seq. lia.
    + rewrite (IH (S n) K w1); [f_equal; lia| |lia].
      unfold w1, after_write_shard. cbn [mapping].
      rewrite update_keys_present; [done|].
      rewrite Hk, elem_of_seq. lia.
Qed.

(** X3: on a topology whose persisted keys are [0 .. N-1] in ascending
    order, held by the object as well, with [N >= 1] and every primary on
    disk, [add_shard] runs to its end, sync pass included: the new count is
    [max(keys) + 2 = N + 1], the mapping and the disk hold the shards
    [0 .. N], and [load_data_from_shards] returns the same corpus after the
    call as before it. *)
Theorem add_shard_grows_by_one (fuel N : nat) (w : World) :
  (1 ≤ N)%nat →
  mapfile w = Some (mapping w) →
  int_keys (mapping w) = seq 0 N →
  (∀ k, (k < N)%nat → is_Some (data_lookup w (primary_name k))) →
  ∃ corpus w',
    load_data_from_shards w = (Ok corpus, w) ∧
    add_shard (S fuel) w = (Ok tt, w') ∧
    int_keys (mapping w') = seq 0 (S N) ∧
    mapfile w' = Some (mapping w') ∧
    (∀ k, (k ≤ N)%nat → is_Some (data_lookup w' (primary_name k))) ∧
    load_data_from_shards w' = (Ok corpus, w').
Proof.
  intros HN Hmf Hk Hall.
  set (m := mapping w) in *.
  set (keys := sorted_keys m).
  assert (Hkeys : keys ≡ₚ seq 0 N).
  { unfold keys. by rewrite sorted_keys_perm, Hk. }
  destruct (read_shards_present w (int_keys m)) as [vals Hvals].
  { intros k Hin. apply Hall. rewrite Hk, elem_of_seq in Hin. lia. }
  set (corpus := concat (universal_newlines <$> vals)).
  assert (Edata : load_data_from_shards w = (Ok corpus, w)).
  { unfold load_data_from_shards, bind at 1, gets. fold m.
    run (read_shards_eq _ _ _ Hvals). done. }
  destruct N as [|N']; [lia|].
  assert (Emax : py_max keys w = (Ok N', w)).
  { unfold py_max. rewrite (max_list_perm_seq keys N' Hkeys).
    destruct keys eqn:Ek; [|done].
    apply Permutation_nil_l in Hkeys. discriminate. }
  destruct (generate_sharded_data_spec (Z.of_nat (N' + 2)) corpus w)
    as (shards & G & Hlen & Hcat & _ & _); [lia|].
  rewrite Nat2Z.id in Hlen.
  pose proof (reread_split vals shards Hcat) as Hclean.
  destruct (write_shards_files shards 0 w) as (w5 & E5 & F5 & L5 & U5).
  pose proof (write_shards_keys shards 0 (S N') w Hk) as K5.
  rewrite E5, Hlen in K5. simpl snd in K5.
  replace (S N' `max` (0 + (N' + 2)))%nat with (S (S N')) in K5 by lia.
  specialize (K5 ltac:(lia)).
  set (w6 := set_mapfile (Some (mapping w5)) w5).
  assert (Hpres : ∀ k, (k ≤ S N')%nat →
                       is_Some (data_lookup w6 (primary_name k))).
  { intros k Hle. destruct (lookup_lt_is_Some_2 shards k) as [x Hx]; [lia|].
    exists x. by apply (L5 k x). }
  destruct (sync_replication_all_present fuel w6) as (w7 & E7 & F7 & M7 & D7).
  { destruct (Hpres 0%nat) as [x Hx]; [lia|]. unfold data_lookup in Hx.
    by destruct (data_dir w6). }
  { intros k Hin. apply Hpres.
    unfold persisted_keys, w6 in Hin. simpl in Hin.
    rewrite sorted_keys_perm, K5, elem_of_seq in Hin. lia. }
  simpl in F7, M7.
  exists corpus, w7.
  split; [done|]. split.
  { unfold add_shard.
    unfold bind at 1, load_map at 1, gets at 1. rewrite Hmf. simpl default.
    unfold bind at 1, modify at 1.
    replace (set_mapping m w) with w by (symmetry; apply set_mapping_same).
    run Edata. fold m. fold keys. run Emax. run G.
    unfold write_shards, enumerate. run E5.
    unfold bind at 1, write_map at 1, modify at 1. fold w6. exact E7. }
  split; [by rewrite M7|]. split; [by rewrite F7, M7|]. split.
  { intros k Hle. rewrite D7. by apply Hpres. }
  assert (Hnew : Forall2 (λ k v, data_lookup w7 (primary_name k) = Some v)
                         (seq 0 (S (S N'))) shards).
  { apply Forall2_same_length_lookup. split; [rewrite length_seq; lia|].
    intros i k v Hik Hv. apply lookup_seq in Hik as [-> _]. simpl.
    rewrite D7. by apply (L5 i v). }
  unfold load_data_from_shards, bind at 1, gets. rewrite M7, K5.
  run (read_shards_eq _ _ _ Hnew). by rewrite Hclean, Hcat.
Qed.

Lemma add_shard_grows_by_one_witness :
  ∃ corpus w',
    load_data_from_shards two_shards = (Ok corpus, two_shards) ∧
    add_shard 1 two_shards = (Ok tt, w') ∧
    int_keys (mapping w') = seq 0 3 ∧
    load_data_from_shards w' = (Ok corpus, w').
Proof.
  destruct (add_shard_grows_by_one 0 2 two_shards)
    as (corpus & w' & B & E & K & _ & _ & A).
  - lia.
  - by vm_compute.
  - by vm_compute.
  - intros [|[|k]] Hk; [vm_compute; eauto | vm_compute; eauto | lia].
  - exists corpus, w'. repeat split; assumption.
Defined.

(** ** Re-sharding when something is missing *)

Lemma read_shards_world (keys : list nat) (w : World) :
  snd (read_shards keys w) = w.
Proof.
  induction keys as [|k keys IH]; simpl; [done|].
  unfold bind at 1, data_read.
  destruct (data_dir w) as [d|]; [|done].
  destruct (d !! primary_name k); [|done].
  unfold bind. destruct (read_shards keys w) as [[vals|e|] w'];
    simpl in *; by subst.
Qed.

Lemma read_shards_missing (keys : list nat) (w : World) (k : nat) :
  k ∈ keys → data_lookup w (primary_name k) = None →
  fst (read_shards keys w) = Raise FileNotFoundError.
Proof.
  intros Hk Hmiss. induction keys as [|k' keys IH]; simpl.
  - by apply elem_of_nil in Hk.
  - unfold bind at 1, data_read. unfold data_lookup in Hmiss.
    destruct (data_dir w) as [d|] eqn:Ed; [|done].
    destruct (d !! primary_name k') as [s|] eqn:Es; [|done].
    apply elem_of_cons in Hk as [->|Hk]; [congruence|].
    specialize (IH Hk). unfold bind.
    pose proof (read_shards_world keys w) as Hw.
    destruct (read_shards keys w) as [[vals|e|] w']; simpl in *;
      by try discriminate.
Qed.


Lemma load_data_missing (w : World) (k : nat) :
  k ∈ int_keys (mapping w) → data_lookup w (primary_name k) = None →
  load_data_from_shards w = (Raise FileNotFoundError, w).
Proof.
  intros Hk Hmiss. unfold load_data_from_shards, bind at 1, gets.
  pose proof (read_shards_missing _ w k Hk Hmiss) as Hr.
  pose proof (read_shards_world (int_keys (mapping w)) w) as Hw.
  unfold bind. destruct (read_shards _ w) as [[vals|e|] w'];
    simpl in *; try discriminate. by injection Hr as ->; subst.
Qed.

(** X4: when the primary of a persisted key is missing, [add_shard] and
    [remove_shard] both raise [FileNotFoundError] while reading the corpus,
    before any deletion or write: the disk is untouched and only the
    in-memory mapping has been reloaded. *)
Theorem reshard_with_missing_primary (fuel : nat) (w : World) (k : nat) :
  k ∈ int_keys (default [] (mapfile w)) →
  data_lookup w (primary_name k) = None →
  add_shard fuel w
    = (Raise FileNotFoundError, set_mapping (default [] (mapfile w)) w) ∧
  remove_shard fuel w
    = (Raise FileNotFoundError, set_mapping (default [] (mapfile w)) w).
Proof.
  intros Hk Hmiss.
  set (w1 := set_mapping (default [] (mapfile w)) w).
  assert (E : load_data_from_shards w1 = (Raise FileNotFoundError, w1))
    by by apply (load_data_missing w1 k).
  split.
  - unfold add_shard.
    unfold bind at 1, load_map at 1, gets at 1.
    unfold bind at 1, modify at 1. fold w1.
    unfold bind at 1. by rewrite E.
  - unfold remove_shard.
    unfold bind at 1, load_map at 1, gets at 1.
    unfold bind at 1, modify at 1. fold w1.
    unfold bind at 1. by rewrite E.
Qed.

Lemma reshard_with_missing_primary_witness :
  add_shard 2 lost_primary = (Raise FileNotFoundError, lost_primary) ∧
  remove_shard 2 lost_primary = (Raise FileNotFoundError, lost_primary).
Proof.
  apply (reshard_with_missing_primary 2 lost_primary 0).
  - vm_compute. by left.
  - by vm_compute.
Defined.




(** X6: [remove_shard] on a topology of the single shard 0 whose primary is
    on disk deletes that primary and then raises [ZeroDivisionError], for the
    new count is [max(keys) = 0]: the index still lists shard 0, its content
    is gone, and no other file has changed. *)
Theorem remove_shard_of_single_shard (fuel : nat) (w : World) (r : Range) :
  mapfile w = Some [(0%nat, r)] →
  is_Some (data_lookup w (primary_name 0)) →
  ∃ w',
    remove_shard fuel w = (Raise ZeroDivisionError, w') ∧
    mapfile w' = mapfile w ∧
    data_lookup w' (primary_name 0) = None ∧
    ∀ name, name ≠ primary_name 0 → data_lookup w' name = data_lookup w name.
Proof.
  intros Hmf [a Ha].
  set (w1 := set_mapping [(0%nat, r)] w).
  assert (Ha1 : data_lookup w1 (primary_name 0) = Some a) by done.
  assert (Edata : load_data_from_shards w1
                  = (Ok (concat (universal_newlines <$> [a])), w1)).
  { unfold load_data_from_shards, bind at 1, gets.
    erewrite bind_eq; [done|]. apply read_shards_eq. by repeat constructor. }
  destruct (remove_primaries_spec [0%nat] w1) as (w2 & E2 & F2 & _ & Gone & Same).
  { apply NoDup_singleton. }
  { intros k Hk. apply list_elem_of_singleton in Hk as ->. by eexists. }
  exists w2. split.
  { unfold remove_shard.
    unfold bind at 1, load_map at 1, gets at 1. rewrite Hmf. simpl default.
    unfold bind at 1, modify at 1. fold w1.
    run Edata. change (sorted_keys [(0%nat, r)]) with [0%nat]. run E2.
    cbv beta iota. unfold bind at 1, py_max at 1, ret. simpl max_list.
    by unfold bind at 1. }
  split; [done|]. split.
  - apply Gone. by left.
  - intros name Hn. rewrite Same; [done|].
    intros k Hk. apply list_elem_of_singleton in Hk as ->. done.
Qed.

Lemma remove_shard_of_single_shard_witness :
  ∃ w',
    remove_shard 1 sharded_world = (Raise ZeroDivisionError, w') ∧
    data_lookup w' (primary_name 0) = None.
Proof.
  destruct (remove_shard_of_single_shard 1 sharded_world (mkRange 0 2))
    as (w' & E & _ & G & _).
  - reflexivity.
  - vm_compute. eauto.
  - exists w'. by split.
Defined.

(** X7: on an empty index (no [mapping.json], or one holding no shard)
    [add_shard] and [remove_shard] raise [ValueError] at [max(keys)], and
    [add_replication] and [remove_replication] raise [IndexError] at
    [keys[0]]; none of them touches the disk. *)
Theorem operations_on_empty_index (fuel : nat) (w : World) :
  default [] (mapfile w) = [] →
  add_shard fuel w = (Raise ValueError, set_mapping [] w) ∧
  remove_shard fuel w = (Raise ValueError, set_mapping [] w) ∧
  add_replication w = (Raise IndexError, set_mapping [] w) ∧
  remove_replication fuel w
    = (Raise IndexError, set_rep_count 1 (set_mapping [] w)).
Proof.
  intros Hm.
  unfold add_shard, remove_shard, add_replication, remove_replication.
  unfold bind, load_map, gets, modify. rewrite Hm. by repeat apply conj.
Qed.

Lemma operations_on_empty_index_witness :
  add_shard 1 fresh_world = (Raise ValueError, fresh_world) ∧
  remove_shard 1 fresh_world = (Raise ValueError, fresh_world) ∧
  add_replication fresh_world = (Raise IndexError, fresh_world) ∧
  remove_replication 1 fresh_world = (Raise IndexError, fresh_world).
Proof.
  apply (operations_on_empty_index 1 fresh_world). reflexivity.
Defined.

(** ** What the sync pass leaves in place *)

(** X11: with fuel above the number of missing primaries, a sync pass,
    whether it returns or raises, leaves [mapping.json] as it was and
    removes no file from [data/]. *)
Theorem sync_replication_removes_nothing (fuel : nat) (w : World) :
  (missing_primaries w < fuel)%nat →
  mapfile (snd (sync_replication fuel w)) = mapfile w ∧
  ∀ name, is_Some (data_lookup w name) →
          is_Some (data_lookup (snd (sync_replication fuel w)) name).
Proof.
  intros H.
  by destruct (sync_replication_fine fuel fuel w H H) as (_ & _ & G).
Qed.

Lemma sync_replication_removes_nothing_witness :
  mapfile (snd (sync_replication 2 lost_primary)) = mapfile lost_primary ∧
  ∀ name, is_Some (data_lookup lost_primary name) →
          is_Some (data_lookup (snd (sync_replication 2 lost_primary)) name).
Proof.
  apply (sync_replication_removes_nothing 2 lost_primary).
  vm_compute. lia.
Defined.

(** ** Adding and removing a replica level *)

Lemma set_rep_count_same (w : World) : set_rep_count (rep_count w) w = w.
Proof. by destruct w. Qed.

Lemma probe_levels_spec (key : nat) (d : gmap string text) :
  ∀ (fuel : nat) (X : gset string) (w : World),
  data_dir w = Some d →
  (∀ r, (rep_count w ≤ r)%nat → is_Some (d !! replica_name key r) →
        replica_name key r ∈ X) →
  (size X < fuel)%nat →
  ∃ L,
    probe_levels fuel key w = (Ok tt, set_rep_count L w) ∧
    (rep_count w ≤ L)%nat ∧
    d !! replica_name key L = None ∧
    ∀ r, (rep_count w ≤ r < L)%nat → is_Some (d !! replica_name key r).
Proof.
  induction fuel as [|fuel IH]; intros X w Hd HX Hsz; [lia|].
  cbn [probe_levels].
  unfold bind at 1, gets at 1. unfold bind at 1, data_exists, gets.
  rewrite Hd. case_bool_decide as Hex.
  - unfold bind at 1, modify at 1.
    set (name := replica_name key (rep_count w)) in *.
    assert (Hin : name ∈ X) by (by apply HX).
    destruct (IH (X ∖ {[name]}) (set_rep_count (S (rep_count w)) w))
      as (L & E & Hle & Hno & Hyes); [done| | |].
    + intros r Hr Hs. simpl in Hr. apply elem_of_difference. split.
      * apply HX; [lia | done].
      * rewrite elem_of_singleton. intros Heq.
        apply replica_name_inj in Heq as [_ Heq]. lia.
    + rewrite size_difference by (by apply singleton_subseteq_l).
      rewrite size_singleton.
      assert (size X ≠ 0%nat).
      { intros Hz. apply size_empty_inv in Hz. set_solver. }
      lia.
    + simpl in Hle. exists L. split; [exact E|]. split; [lia|].
      split; [done|]. intros r Hr.
      destruct (decide (r = rep_count w)) as [->|]; [done|].
      apply Hyes. simpl. lia.
  - exists (rep_count w). rewrite set_rep_count_same.
    split; [done|]. split; [lia|]. split; [|lia].
    by apply eq_None_not_Some.
Qed.

(** The probe as both replication methods run it: behind a first test of
    the current level. *)
Lemma probe_spec (k0 : nat) (w : World) :
  ∃ L,
    (let* e := data_exists (replica_name k0 (rep_count w)) in
     (if e then let* f := probe_fuel in probe_levels f k0 else ret tt)) w
    = (Ok tt, set_rep_count L w) ∧
    (rep_count w ≤ L)%nat ∧
    data_lookup w (replica_name k0 L) = None ∧
    ∀ r, (rep_count w ≤ r < L)%nat →
         is_Some (data_lookup w (replica_name k0 r)).
Proof.
  unfold bind at 1, data_exists, gets, data_lookup.
  destruct (data_dir w) as [d|] eqn:Hd.
  - case_bool_decide as Hex.
    + destruct (probe_levels_spec k0 d (S (size d)) (dom d) w)
        as (L & E & Hle & Hno & Hyes); [done| |rewrite size_dom; lia|].
      { intros r _ Hs. by apply elem_of_dom. }
      exists L. split; [|done].
      unfold bind at 1, probe_fuel, gets. by rewrite Hd.
    + exists (rep_count w). rewrite set_rep_count_same.
      split; [done|]. split; [lia|]. split; [|lia].
      by apply eq_None_not_Some.
  - exists (rep_count w). rewrite set_rep_count_same.
    split; [done|]. split; [lia|]. split; [done|lia].
Qed.

Lemma copy_primaries (keys : list nat) : ∀ w,
  (∀ k, k ∈ keys → is_Some (data_lookup w (primary_name k))) →
  ∃ w',
    for_each keys (λ key,
      let* a := data_read (primary_name key) in
      let* r := gets rep_count in
      data_write (replica_name key r) a) w = (Ok tt, w') ∧
    rep_count w' = rep_count w ∧ mapfile w' = mapfile w ∧
    mapping w' = mapping w ∧
    (∀ k, k ∈ keys →
          data_lookup w' (replica_name k (rep_count w))
          = universal_newlines <$> data_lookup w (primary_name k)) ∧
    (∀ name, (∀ k, k ∈ keys → name ≠ replica_name k (rep_count w)) →
             data_lookup w' name = data_lookup w name).
Proof.
  induction keys as [|key keys IH]; intros w Hall.
  - exists w. repeat split; try done. intros k Hk. by apply elem_of_nil in Hk.
  - destruct (Hall key) as [a Ha]; [by left|].
    unfold data_lookup in Ha. destruct (data_dir w) as [d|] eqn:Ed; [|done].
    set (L := rep_count w).
    set (w1 := set_data
                 (Some (<[replica_name key L := universal_newlines a]> d)) w).
    assert (L1 : ∀ name, data_lookup w1 name
                         = if decide (name = replica_name key L)
                           then Some (universal_newlines a)
                           else data_lookup w name).
    { intros name. unfold data_lookup. simpl. rewrite Ed.
      destruct (decide (name = replica_name key L)) as [->|].
      - by rewrite lookup_insert_eq.
      - by rewrite lookup_insert_ne. }
    assert (P1 : ∀ k, data_lookup w1 (primary_name k)
                      = data_lookup w (primary_name k)).
    { intros k. rewrite L1. destruct (decide _) as [Heq|]; [|done].
      symmetry in Heq. by apply replica_primary_ne in Heq. }
    destruct (IH w1) as (w' & E & R & F & Mp & C & U).
    { intros k Hk. rewrite P1. apply Hall. by right. }
    exists w'. split.
    { cbn [for_each]. unfold bind at 1. unfold bind at 1, data_read at 1.
      rewrite Ed, Ha. unfold bind at 1, gets at 1.
      unfold data_write at 1. rewrite Ed. exact E. }
    split; [done|]. split; [done|]. split; [done|]. split.
    + intros k Hk. change (rep_count w1) with L in C, U.
      destruct (decide (k ∈ keys)) as [Hin|Hnin].
      * by rewrite (C k Hin), P1.
      * apply elem_of_cons in Hk as [->|Hk]; [|done].
        rewrite U, L1.
        { destruct (decide _); [|done]. unfold data_lookup.
          by rewrite Ed, Ha. }
        intros k Hk Heq. apply replica_name_inj in Heq as [-> _]. done.
    + intros name Hn. change (rep_count w1) with L in U. rewrite U, L1.
      * destruct (decide _) as [->|]; [|done].
        exfalso. by apply (Hn key); [left|].
      * intros k Hk. apply Hn. by right.
Qed.

(** X8: on an index whose primaries are all on disk, [add_replication]
    returns after writing one replica per shard, all at the same level [L],
    each holding the text of its primary as text-mode reading gives it (a
    carriage return, alone or before a line feed, is stored as a line feed),
    and changes no other file. The level is the first one, counting up from
    the handler's current [rep_count], at which the first shard (in sorted
    order) has no replica; [rep_count] is left at [L]. *)
Theorem add_replication_copies_primaries (w : World) (k0 : nat) (rest : list nat) :
  sorted_keys (default [] (mapfile w)) = k0 :: rest →
  (∀ k, k ∈ int_keys (default [] (mapfile w)) →
        is_Some (data_lookup w (primary_name k))) →
  ∃ L w',
    add_replication w = (Ok tt, w') ∧
    rep_count w' = L ∧ (rep_count w ≤ L)%nat ∧
    data_lookup w (replica_name k0 L) = None ∧
    (∀ r, (rep_count w ≤ r < L)%nat →
          is_Some (data_lookup w (replica_name k0 r))) ∧
    mapfile w' = mapfile w ∧
    (∀ k, k ∈ int_keys (default [] (mapfile w)) →
          data_lookup w' (replica_name k L)
          = universal_newlines <$> data_lookup w (primary_name k)) ∧
    (∀ name,
       (∀ k, k ∈ int_keys (default [] (mapfile w)) → name ≠ replica_name k L) →
       data_lookup w' name = data_lookup w name).
Proof.
  intros Hkeys Hall.
  set (m := default [] (mapfile w)) in *.
  set (w1 := set_mapping m w).
  destruct (probe_spec k0 w1) as (L & Ep & Hle & Hno & Hyes).
  set (w2 := set_rep_count L w1) in *.
  assert (Hin : ∀ k, k ∈ sorted_keys m ↔ k ∈ int_keys m).
  { intros k. by rewrite sorted_keys_perm. }
  destruct (copy_primaries (sorted_keys m) w2) as (w' & E & R & F & Mp & C & U).
  { intros k Hk. apply Hall. by apply Hin. }
  exists L, w'. split.
  { unfold add_replication.
    unfold bind at 1, load_map at 1, gets at 1.
    unfold bind at 1, modify at 1. fold m. fold w1.
    rewrite Hkeys. unfold bind at 1, first_key at 1, ret.
    unfold bind at 1, gets at 1.
    change (bind (bind (data_exists (replica_name k0 (rep_count w1)))
                   (λ e, if e then let* f := probe_fuel in probe_levels f k0
                         else ret tt))
              (λ _, for_each (k0 :: rest) (λ key,
                 let* a := data_read (primary_name key) in
                 let* r := gets rep_count in
                 data_write (replica_name key r) a)) w1 = (Ok tt, w')).
    run Ep. rewrite <- Hkeys. exact E. }
  split; [done|]. split; [done|]. split; [done|]. split; [done|].
  split; [done|]. split.
  - intros k Hk. apply (C k). by apply Hin.
  - intros name Hn. apply (U name). intros k Hk. apply Hn. by apply Hin.
Qed.

Lemma add_replication_copies_primaries_witness :
  ∃ L w',
    add_replication two_shards = (Ok tt, w') ∧
    rep_count w' = L ∧
    data_lookup w' (replica_name 1 L)
    = universal_newlines <$> data_lookup two_shards (primary_name 1).
Proof.
  destruct (add_replication_copies_primaries two_shards 0 [1%nat])
    as (L & w' & E & R & _ & _ & _ & _ & C & _).
  - by vm_compute.
  - intros k Hk. vm_compute in Hk.
    apply elem_of_cons in Hk as [->|Hk]; [vm_compute; eauto|].
    apply list_elem_of_singleton in Hk as ->. vm_compute. eauto.
  - exists L, w'. split; [exact E|]. split; [exact R|].
    apply C. vm_compute. right. by left.
Defined.

(** X9: when the first shard (in sorted order) has no level-1 replica,
    [remove_replication] raises [FileNotFoundError] without touching the
    disk; the object's mapping has been reloaded and its [rep_count] reset
    to 1. *)
Theorem remove_replication_without_replica
    (fuel : nat) (w : World) (k0 : nat) (rest : list nat) :
  sorted_keys (default [] (mapfile w)) = k0 :: rest →
  data_lookup w (replica_name k0 1) = None →
  remove_replication fuel w
  = (Raise FileNotFoundError,
     set_rep_count 1 (set_mapping (default [] (mapfile w)) w)).
Proof.
  intros Hkeys Hno. unfold remove_replication.
  unfold bind at 1, load_map at 1, gets at 1.
  unfold bind at 1, modify at 1. rewrite Hkeys.
  unfold bind at 1, modify at 1.
  unfold bind at 1, first_key at 1, ret.
  unfold bind at 1, data_exists at 1, gets at 1. simpl data_dir.
  unfold data_lookup in Hno. destruct (data_dir w) as [d|].
  - rewrite bool_decide_eq_false_2 by (rewrite Hno; by intros [? ?]).
    by unfold bind at 1.
  - by unfold bind at 1.
Qed.

Lemma remove_replication_without_replica_witness :
  remove_replication 1 two_shards
  = (Raise FileNotFoundError, set_rep_count 1 two_shards).
Proof.
  apply (remove_replication_without_replica 1 two_shards 0 [1%nat]);
    by vm_compute.
Defined.

(** ** The sync pass on a topology without loss *)

Lemma sync_present_step_spec key a w :
  ∃ w',
    sync_present_step key a w = (Ok tt, w') ∧
    rep_count w' = S (rep_count w) ∧
    mapfile w' = mapfile w ∧ mapping w' = mapping w ∧ cwd w' = cwd w ∧
    (is_Some (data_dir w) → is_Some (data_dir w')) ∧
    ∀ name,
      data_lookup w' name
      = if decide (name = replica_name key (rep_count w))
        then resync a <$> data_lookup w name
        else data_lookup w name.
Proof.
  unfold sync_present_step, bind, gets, data_exists, data_read, data_write,
    modify, ret.
  destruct (data_dir w) as [d|] eqn:Ed; simpl.
  - destruct (d !! replica_name key (rep_count w)) as [b|] eqn:Eb; simpl.
    + rewrite Ed, Eb, bool_decide_eq_true_2 by done. rewrite Ed, Eb.
      case_bool_decide as Hab; rewrite ?Ed; eexists; (split; [done|]);
        (split; [done|]); (split; [done|]); (split; [done|]);
        (split; [done|]); (split; [simpl; by rewrite ?Ed|]);
        intros name; unfold data_lookup; simpl;
        rewrite Ed.
      * destruct (decide (name = _)) as [->|].
        -- rewrite lookup_insert_eq, Eb. simpl. unfold resync.
           by rewrite decide_False.
        -- by rewrite lookup_insert_ne.
      * destruct (decide (name = _)) as [->|]; [|done].
        rewrite Eb. simpl. f_equal. unfold resync.
        destruct (decide (a = _)); [done | by destruct Hab].
    + rewrite Ed, Eb, bool_decide_eq_false_2 by (by intros [? ?]).
      eexists. do 5 (split; [done|]). split; [simpl; by rewrite Ed|].
      intros name.
      unfold data_lookup. simpl. rewrite Ed.
      destruct (decide (name = _)) as [->|]; [by rewrite Eb | done].
  - rewrite Ed. eexists. do 5 (split; [done|]). split; [by intros [? ?]|].
    intros name.
    unfold data_lookup. simpl. rewrite Ed. by destruct (decide _).
Qed.

Lemma repeat_present_spec (n : nat) key a : ∀ w,
  ∃ w',
    repeat_n n (sync_present_step key a) w = (Ok tt, w') ∧
    rep_count w' = (rep_count w + n)%nat ∧
    mapfile w' = mapfile w ∧ mapping w' = mapping w ∧ cwd w' = cwd w ∧
    (is_Some (data_dir w) → is_Some (data_dir w')) ∧
    (∀ l, (rep_count w ≤ l < rep_count w + n)%nat →
          data_lookup w' (replica_name key l)
          = resync a <$> data_lookup w (replica_name key l)) ∧
    (∀ name,
       (∀ l, (rep_count w ≤ l < rep_count w + n)%nat →
             name ≠ replica_name key l) →
       data_lookup w' name = data_lookup w name).
Proof.
  induction n as [|n IH]; intros w; simpl.
  - exists w. split; [done|]. split; [lia|]. do 4 (split; [done|]).
    split; [intros; lia | done].
  - destruct (sync_present_step_spec key a w)
      as (w1 & E1 & R1 & F1 & M1 & C1 & D1 & L1).
    destruct (IH w1) as (w2 & E2 & R2 & F2 & M2 & C2 & D2 & Hin & Hout).
    exists w2. run E1. split; [done|]. split; [lia|].
    split; [congruence|]. split; [congruence|]. split; [congruence|].
    split; [auto|]. split.
    + intros l Hl. destruct (decide (l = rep_count w)) as [->|Hne].
      * rewrite Hout, L1.
        { by destruct (decide _). }
        intros l Hl' Heq. apply replica_name_inj in Heq as [_ Heq]. lia.
      * rewrite Hin by lia. rewrite L1.
        destruct (decide _) as [Heq|]; [|done].
        apply replica_name_inj in Heq as [_ Heq]. done.
    + intros name Hn. rewrite Hout, L1.
      * destruct (decide _) as [->|]; [|done].
        exfalso. apply (Hn (rep_count w)); [lia | done].
      * intros l Hl. apply Hn. lia.
Qed.

Lemma same_files_refl w : same_files w w.
Proof. by intros name. Qed.

Lemma same_files_trans w1 w2 w3 :
  same_files w1 w2 → same_files w2 w3 → same_files w1 w3.
Proof. intros H1 H2 name. by rewrite (H2 name), (H1 name). Qed.

(** One round of the loop over the keys, for a shard whose primary exists
    and holds [p]. *)
Lemma sync_key_spec (self_call : M unit) (max_files key : nat) (p : text) w :
  data_lookup w (primary_name key) = Some p →
  ∃ w',
    (modify (set_rep_count 1%nat) ;;;
     let* e := data_exists (primary_name key) in
     if e then
       let* a := data_read (primary_name key) in
       repeat_n (S max_files) (sync_present_step key a)
     else
       repeat_n (S max_files) (sync_missing_step self_call key)) w
    = (Ok tt, w') ∧
    mapfile w' = mapfile w ∧ mapping w' = mapping w ∧ cwd w' = cwd w ∧
    (is_Some (data_dir w) → is_Some (data_dir w')) ∧
    (∀ l, (1 ≤ l ≤ S max_files)%nat →
          data_lookup w' (replica_name key l)
          = resync (universal_newlines p)
              <$> data_lookup w (replica_name key l)) ∧
    (∀ name,
       (∀ l, (1 ≤ l ≤ S max_files)%nat → name ≠ replica_name key l) →
       data_lookup w' name = data_lookup w name).
Proof.
  intros Ha.
  set (w1 := set_rep_count 1%nat w).
  destruct (repeat_present_spec (S max_files) key (universal_newlines p) w1)
    as (w2 & E2 & _ & F & Mp & C & D & Hin & Hout).
  change (rep_count w1) with 1%nat in Hin, Hout.
  exists w2. split.
  { unfold bind at 1, modify at 1. fold w1.
    unfold bind at 1, data_exists at 1, gets at 1.
    assert (Ha1 : data_lookup w1 (primary_name key) = Some p) by done.
    unfold data_lookup in Ha1. destruct (data_dir w1) as [d|] eqn:Ed; [|done].
    rewrite bool_decide_eq_true_2 by (by rewrite Ha1).
    unfold bind at 1, data_read at 1. by rewrite Ed, Ha1. }
  do 4 (split; [done|]). split.
  - intros l Hl. apply Hin. lia.
  - intros name Hn. apply Hout. intros l Hl. apply Hn. lia.
Qed.

Lemma sync_keys_spec (self_call : M unit) (max_files : nat) (keys : list nat) :
  ∀ w,
  (∀ k, k ∈ keys → is_Some (data_lookup w (primary_name k))) →
  ∃ w',
    for_each keys (λ key,
      modify (set_rep_count 1%nat) ;;;
      let* e := data_exists (primary_name key) in
      if e then
        let* a := data_read (primary_name key) in
        repeat_n (S max_files) (sync_present_step key a)
      else
        repeat_n (S max_files) (sync_missing_step self_call key)) w
    = (Ok tt, w') ∧
    mapfile w' = mapfile w ∧ mapping w' = mapping w ∧ cwd w' = cwd w ∧
    (is_Some (data_dir w) → is_Some (data_dir w')) ∧
    same_files w w' ∧
    (∀ k, data_lookup w' (primary_name k) = data_lookup w (primary_name k)) ∧
    (∀ k l p, k ∈ keys → (1 ≤ l ≤ S max_files)%nat →
              data_lookup w (primary_name k) = Some p →
              data_lookup w' (replica_name k l)
              = resync (universal_newlines p)
                  <$> data_lookup w (replica_name k l)) ∧
    (∀ name,
       (∀ k l, k ∈ keys → (1 ≤ l ≤ S max_files)%nat →
               name ≠ replica_name k l) →
       data_lookup w' name = data_lookup w name).
Proof.
  induction keys as [|key keys IH]; intros w Hall.
  - exists w. do 5 (split; [done|]). split; [apply same_files_refl|].
    split; [done|]. split; [|done].
    intros k l p Hk. by apply elem_of_nil in Hk.
  - destruct (Hall key) as [a Ha]; [by left|].
    destruct (sync_key_spec self_call max_files key a w Ha)
      as (w1 & E1 & F1 & M1 & C1 & D1 & Hin & Hout).
    assert (P1 : ∀ k, data_lookup w1 (primary_name k)
                      = data_lookup w (primary_name k)).
    { intros k. apply Hout. intros l _ Heq. symmetry in Heq.
      by apply replica_primary_ne in Heq. }
    assert (S1 : same_files w w1).
    { intros name.
      destruct (decide (name ∈ replica_name key <$> seq 1 (S max_files)))
        as [Hyes|Hno].
      - apply list_elem_of_fmap in Hyes as (l & -> & Hl).
        apply elem_of_seq in Hl.
        rewrite (Hin l) by lia. by rewrite fmap_is_Some.
      - rewrite Hout; [done|]. intros l Hl ->. apply Hno.
        apply list_elem_of_fmap. exists l. split; [done|].
        apply elem_of_seq. lia. }
    destruct (IH w1)
      as (w2 & E2 & F2 & M2 & C2 & D2 & S2 & P2 & Kin & U2).
    { intros k Hk. rewrite P1. apply Hall. by right. }
    exists w2. split; [cbn [for_each]; by run E1|].
    split; [congruence|]. split; [congruence|]. split; [congruence|].
    split; [auto|].
    split; [by apply (same_files_trans _ w1)|].
    split; [intros k; by rewrite P2|]. split.
    + intros k l p Hk Hl Hp.
      destruct (decide (k ∈ keys)) as [Hrest|Hrest].
      * rewrite (Kin k l p Hrest Hl) by (by rewrite P1).
        destruct (decide (k = key)) as [->|Hne].
        -- rewrite (Hin l Hl). rewrite Ha in Hp. injection Hp as ->.
           destruct (data_lookup w (replica_name key l)); [|done].
           simpl. f_equal. apply resync_idem, universal_newlines_idem.
        -- rewrite Hout; [done|].
           intros l' _ Heq. by apply replica_name_inj in Heq as [? _].
      * apply elem_of_cons in Hk as [->|Hk]; [|done].
        rewrite Ha in Hp. injection Hp as ->.
        rewrite U2; [by apply Hin|].
        intros k' l' Hk' _ Heq. apply replica_name_inj in Heq as [-> _]. done.
    + intros name Hn. rewrite U2, Hout; [done| |].
      * intros l Hl. apply Hn; [by left | done].
      * intros k l Hk Hl. apply Hn; [by right | done].
Qed.

Lemma sync_all_present_spec (fuel : nat) (w : World) :
  is_Some (data_dir w) →
  (∀ k, k ∈ persisted_keys w → is_Some (data_lookup w (primary_name k))) →
  ∃ max_files w',
    count_files w = (Ok max_files, w) ∧
    sync_replication (S fuel) w = (Ok tt, w') ∧
    mapfile w' = mapfile w ∧
    mapping w' = default [] (mapfile w) ∧
    cwd w' = cwd w ∧
    is_Some (data_dir w') ∧
    same_files w w' ∧
    (∀ k, data_lookup w' (primary_name k) = data_lookup w (primary_name k)) ∧
    (∀ k l p, k ∈ persisted_keys w → (1 ≤ l ≤ S max_files)%nat →
              data_lookup w (primary_name k) = Some p →
              data_lookup w' (replica_name k l)
              = resync (universal_newlines p)
                  <$> data_lookup w (replica_name k l)) ∧
    (∀ k, k ∈ persisted_keys w → synced_upto (S max_files) w' k) ∧
    (∀ name,
       (∀ k l, k ∈ persisted_keys w → (1 ≤ l ≤ S max_files)%nat →
               name ≠ replica_name k l) →
       data_lookup w' name = data_lookup w name).
Proof.
  intros [d Hd] Hall.
  set (m := default [] (mapfile w)).
  set (w1 := set_mapping m w).
  set (mx := length (filter (λ name, isfile w name = true) (elements (dom d)))).
  destruct (sync_keys_spec (sync_replication fuel) mx (sorted_keys m) w1)
    as (w' & E & F & Mp & C & D & Sf & P & Kin & U).
  { intros k Hk. by apply Hall. }
  exists mx, w'. split.
  { unfold count_files. by rewrite Hd. }
  split.
  { cbn [sync_replication]. unfold sync_body.
    unfold bind at 1, load_map at 1, gets at 1. fold m.
    unfold bind at 1, modify at 1. fold w1.
    unfold bind at 1, count_files at 1.
    change (data_dir w1) with (data_dir w). rewrite Hd. exact E. }
  do 3 (split; [done|]). split; [apply D; simpl; by rewrite Hd|].
  do 3 (split; [done|]). split; [|done].
  intros k Hk l b Hl Hb.
  destruct (Hall k Hk) as [p Hp]. exists p. split; [by rewrite P|].
  rewrite (Kin k l p Hk Hl Hp) in Hb.
  change (data_lookup w1) with (data_lookup w) in Hb.
  destruct (data_lookup w (replica_name k l)) as [b0|]; [|done].
  injection Hb as <-. apply resync_reads, universal_newlines_idem.
Qed.

(** X12: when [data/] exists and every persisted shard has its primary, a
    sync pass returns. Let [max_files] be the count the pass computes: the
    entries of [data/] whose names are regular files of the working
    directory. A replica of a persisted shard at a level from 1 to
    [max_files + 1] is left as it was when it reads as its primary reads,
    and otherwise holds the primary's text as text-mode reading gives it;
    so afterwards each of these replicas reads as its primary reads (the
    two files may still differ in a line ending that reading translates).
    The pass changes neither the index, nor a primary, nor the set of file
    names in [data/], nor any file other than those replicas: a replica
    above level [max_files + 1] is left as it was. *)
Theorem sync_replication_equalises_probed_levels (fuel : nat) (w : World) :
  is_Some (data_dir w) →
  (∀ k, k ∈ persisted_keys w → is_Some (data_lookup w (primary_name k))) →
  ∃ max_files w',
    count_files w = (Ok max_files, w) ∧
    sync_replication (S fuel) w = (Ok tt, w') ∧
    mapfile w' = mapfile w ∧
    same_files w w' ∧
    (∀ k, data_lookup w' (primary_name k) = data_lookup w (primary_name k)) ∧
    (∀ k l p, k ∈ persisted_keys w → (1 ≤ l ≤ S max_files)%nat →
              data_lookup w (primary_name k) = Some p →
              data_lookup w' (replica_name k l)
              = resync (universal_newlines p)
                  <$> data_lookup w (replica_name k l)) ∧
    (∀ k, k ∈ persisted_keys w → synced_upto (S max_files) w' k) ∧
    (∀ name,
       (∀ k l, k ∈ persisted_keys w → (1 ≤ l ≤ S max_files)%nat →
               name ≠ replica_name k l) →
       data_lookup w' name = data_lookup w name).
Proof.
  intros Hd Hall.
  destruct (sync_all_present_spec fuel w Hd Hall)
    as (mx & w' & Ec & E & F & _ & _ & _ & Sf & P & Kin & K & U).
  by exists mx, w'.
Qed.

Lemma sync_replication_equalises_probed_levels_witness :
  ∃ w',
    sync_replication 1 drifted_replica = (Ok tt, w') ∧
    data_lookup w' (replica_name 0 1) = Some (T "AB") ∧
    synced_upto 1 w' 0.
Proof.
  destruct (sync_replication_equalises_probed_levels 0 drifted_replica)
    as (mx & w' & Ec & E & _ & _ & _ & Kin & K & _).
  - vm_compute. eauto.
  - intros k Hk. vm_compute in Hk.
    apply list_elem_of_singleton in Hk as ->. vm_compute. eauto.
  - exists w'. split; [exact E|].
    assert (mx = 0%nat) as -> by (vm_compute in Ec; congruence).
    split.
    + rewrite (Kin 0%nat 1%nat (T "AB")); [by vm_compute | | lia | by vm_compute].
      vm_compute. by left.
    + apply K. vm_compute. by left.
Defined.

Lemma probe_run (k0 : nat) (w : World) :
  is_Some (data_dir w) →
  ∃ L,
    (let* f := probe_fuel in probe_levels f k0) w
    = (Ok tt, set_rep_count L w) ∧
    (rep_count w ≤ L)%nat ∧
    data_lookup w (replica_name k0 L) = None ∧
    ∀ r, (rep_count w ≤ r < L)%nat →
         is_Some (data_lookup w (replica_name k0 r)).
Proof.
  intros [d Hd]. unfold data_lookup. rewrite Hd.
  destruct (probe_levels_spec k0 d (S (size d)) (dom d) w)
    as (L & E & Hle & Hno & Hyes); [done| |rewrite size_dom; lia|].
  { intros r _ Hs. by apply elem_of_dom. }
  exists L. split; [|done].
  unfold bind at 1, probe_fuel, gets. by rewrite Hd.
Qed.

Lemma remove_level (keys : list nat) (L : nat) : ∀ w,
  NoDup keys → rep_count w = S L →
  (∀ k, k ∈ keys → is_Some (data_lookup w (replica_name k L))) →
  ∃ w',
    for_each keys (λ key,
      let* r := gets rep_count in
      data_remove (replica_name key (r - 1)%nat)) w = (Ok tt, w') ∧
    mapfile w' = mapfile w ∧ mapping w' = mapping w ∧
    (∀ k, k ∈ keys → data_lookup w' (replica_name k L) = None) ∧
    (∀ name, (∀ k, k ∈ keys → name ≠ replica_name k L) →
             data_lookup w' name = data_lookup w name).
Proof.
  induction keys as [|key keys IH]; intros w Hnd Hr Hall.
  - exists w. repeat split; try done. intros k Hk. by apply elem_of_nil in Hk.
  - apply NoDup_cons in Hnd as [Hnotin Hnd].
    destruct (Hall key) as [a Ha]; [by left|].
    unfold data_lookup in Ha. destruct (data_dir w) as [d|] eqn:Ed; [|done].
    set (w1 := set_data (Some (delete (replica_name key L) d)) w).
    assert (L1 : ∀ name, name ≠ replica_name key L →
                         data_lookup w1 name = data_lookup w name).
    { intros name Hne. unfold data_lookup. simpl. rewrite Ed.
      by apply lookup_delete_ne. }
    destruct (IH w1 Hnd) as (w' & E & F & Mp & Gone & Same); [done| |].
    { intros k Hk. rewrite L1; [apply Hall; by right|].
      intros Heq. apply replica_name_inj in Heq as [-> _]. done. }
    exists w'. split.
    { cbn [for_each]. unfold bind at 1. unfold bind at 1, gets at 1.
      rewrite Hr. replace (S L - 1)%nat with L by lia.
      unfold data_remove at 1. rewrite Ed, Ha. exact E. }
    split; [done|]. split; [done|]. split.
    + intros k Hk. apply elem_of_cons in Hk as [->|Hk]; [|by apply Gone].
      rewrite Same.
      * unfold data_lookup. simpl. apply lookup_delete_eq.
      * intros k Hk Heq. apply replica_name_inj in Heq as [-> _]. done.
    + intros name Hn. rewrite Same.
      * apply L1, Hn. by left.
      * intros k Hk. apply Hn. by right.
Qed.

(** X10: on an index with distinct keys whose primaries are all on disk,
    where the first shard (in sorted order) has replicas at the levels
    [1 .. L] and none at [L + 1], and every shard has one at level [L],
    [remove_replication] returns after deleting the level-[L] replica of
    every shard and running a sync pass: no primary changes, and no other
    file appears or disappears. *)
Theorem remove_replication_removes_top_level
    (fuel : nat) (w : World) (k0 : nat) (rest : list nat) (L : nat) :
  sorted_keys (default [] (mapfile w)) = k0 :: rest →
  NoDup (int_keys (default [] (mapfile w))) →
  (∀ k, k ∈ int_keys (default [] (mapfile w)) →
        is_Some (data_lookup w (primary_name k))) →
  (1 ≤ L)%nat →
  (∀ l, (1 ≤ l ≤ L)%nat → is_Some (data_lookup w (replica_name k0 l))) →
  data_lookup w (replica_name k0 (S L)) = None →
  (∀ k, k ∈ int_keys (default [] (mapfile w)) →
        is_Some (data_lookup w (replica_name k L))) →
  ∃ w',
    remove_replication (S fuel) w = (Ok tt, w') ∧
    mapfile w' = mapfile w ∧
    (∀ k, k ∈ int_keys (default [] (mapfile w)) →
          data_lookup w' (replica_name k L) = None) ∧
    (∀ k, data_lookup w' (primary_name k) = data_lookup w (primary_name k)) ∧
    (∀ name,
       (∀ k, k ∈ int_keys (default [] (mapfile w)) → name ≠ replica_name k L) →
       (is_Some (data_lookup w' name) ↔ is_Some (data_lookup w name))).
Proof.
  intros Hkeys Hnd Hall HL Hlev Htop Hrep.
  set (m := default [] (mapfile w)) in *.
  set (w2 := set_rep_count 1%nat (set_mapping m w)).
  assert (Hin : ∀ k, k ∈ sorted_keys m ↔ k ∈ int_keys m).
  { intros k. by rewrite sorted_keys_perm. }
  assert (Hd : is_Some (data_dir w)).
  { destruct (Hlev 1%nat) as [x Hx]; [lia|]. unfold data_lookup in Hx.
    by destruct (data_dir w). }
  destruct (probe_run k0 w2 Hd) as (L' & Ep & Hle & Hno & Hyes).
  change (rep_count w2) with 1%nat in Hle, Hyes.
  change (data_lookup w2) with (data_lookup w) in Hno, Hyes.
  assert (L' = S L) as ->.
  { destruct (decide (L' ≤ L)%nat) as [Hs|Hs].
    - destruct (Hlev L') as [x Hx]; [lia|]. congruence.
    - destruct (decide (L' = S L)); [done|].
      destruct (Hyes (S L)) as [x Hx]; [lia|]. congruence. }
  set (w3 := set_rep_count (S L) w2) in *.
  destruct (remove_level (sorted_keys m) L w3) as (w4 & E4 & F4 & M4 & Gone & Same).
  { by rewrite sorted_keys_perm. }
  { done. }
  { intros k Hk. apply Hrep. by apply Hin. }
  assert (P4 : ∀ k, data_lookup w4 (primary_name k)
                    = data_lookup w (primary_name k)).
  { intros k. apply (Same (primary_name k)). intros k' _ Heq. symmetry in Heq.
    by apply replica_primary_ne in Heq. }
  assert (Hk0 : k0 ∈ int_keys m) by (apply Hin; rewrite Hkeys; by left).
  destruct (sync_all_present_spec fuel w4)
    as (mx & w' & _ & E & F & _ & _ & _ & Sf & P & _ & _).
  { destruct (Hall k0 Hk0) as [x Hx]. rewrite <- P4 in Hx.
    unfold data_lookup in Hx. by destruct (data_dir w4). }
  { intros k Hk. rewrite P4. apply Hall.
    unfold persisted_keys in Hk. rewrite F4 in Hk. by apply Hin. }
  exists w'. split.
  { unfold remove_replication.
    unfold bind at 1, load_map at 1, gets at 1.
    unfold bind at 1, modify at 1. fold m. rewrite Hkeys.
    unfold bind at 1, modify at 1. fold w2.
    unfold bind at 1, first_key at 1, ret.
    unfold bind at 1, data_exists at 1, gets at 1.
    destruct (Hlev 1%nat) as [x Hx]; [lia|].
    change (data_dir w2) with (data_dir w).
    unfold data_lookup in Hx. destruct (data_dir w) as [d|] eqn:Ed; [|done].
    rewrite bool_decide_eq_true_2 by (by rewrite Hx).
    unfold bind at 1. unfold bind at 1. rewrite Ep.
    rewrite <- Hkeys. rewrite E4. exact E. }
  split; [by rewrite F|]. split.
  - intros k Hk. apply eq_None_not_Some. rewrite (Sf _).
    rewrite Gone; [by intros [? ?]|]. by apply Hin.
  - split; [intros k; by rewrite P|].
    intros name Hn. rewrite (Sf name), Same; [done|].
    intros k Hk. apply Hn. by apply Hin.
Qed.

Lemma remove_replication_removes_top_level_witness :
  ∃ w',
    remove_replication 1 two_shards_replicated = (Ok tt, w') ∧
    data_lookup w' (replica_name 0 1) = None ∧
    data_lookup w' (replica_name 1 1) = None.
Proof.
  destruct (remove_replication_removes_top_level
              0 two_shards_replicated 0 [1%nat] 1)
    as (w' & E & _ & G & _).
  - by vm_compute.
  - vm_compute. apply NoDup_cons. split; [|apply NoDup_singleton].
    intros H%list_elem_of_singleton. discriminate H.
  - intros k Hk. vm_compute in Hk.
    apply elem_of_cons in Hk as [->|Hk]; [vm_compute; eauto|].
    apply list_elem_of_singleton in Hk as ->. vm_compute. eauto.
  - lia.
  - intros l Hl. assert (l = 1%nat) as -> by lia. vm_compute. eauto.
  - by vm_compute.
  - intros k Hk. vm_compute in Hk.
    apply elem_of_cons in Hk as [->|Hk]; [vm_compute; eauto|].
    apply list_elem_of_singleton in Hk as ->. vm_compute. eauto.
  - exists w'. split; [exact E|]. split; apply G; vm_compute.
    + by left.
    + right. by left.
Defined.

(** ** Restoring a lost primary *)

Lemma get_is_Some (m : Mapping) (k : nat) :
  k ∈ int_keys m → is_Some (get m k).
Proof.
  unfold int_keys. induction m as [|[k' v] m IH]; csimpl; intros H.
  - by apply elem_of_nil in H.
  - destruct (decide (k' = k)); [by eexists|].
    apply IH. by apply elem_of_cons in H as [->|].
Qed.

Lemma few_missing_grows n k w w' :
  grows w w' → few_missing_once n k w → few_missing_once n k w'.
Proof. intros G H w'' G' Hs. apply H; [by apply (grows_trans _ w') | done]. Qed.

Lemma sync_missing_step_absent (self_call : M unit) key' w d :
  data_dir w = Some d →
  d !! replica_name key' (rep_count w) = None →
  sync_missing_step self_call key' w
  = (Ok tt, set_rep_count (S (rep_count w)) w).
Proof.
  intros Ed Eb.
  unfold sync_missing_step, bind, gets, data_exists, modify, ret. simpl.
  rewrite Ed, Eb. by rewrite bool_decide_eq_false_2 by (by intros [? ?]).
Qed.

Lemma sync_missing_step_found (self_call : M unit) key' w d b rg' :
  data_dir w = Some d →
  d !! replica_name key' (rep_count w) = Some b →
  get (mapping w) key' = Some rg' →
  sync_missing_step self_call key' w
  = if end_ rg' - start rg' =? len (universal_newlines b) then
      (self_call ;;; modify (λ w, set_rep_count (S (rep_count w)) w))
        (set_data
           (Some (<[primary_name key' := universal_newlines b]> d)) w)
    else (Ok tt, set_rep_count (S (rep_count w)) w).
Proof.
  intros Ed Eb Eg.
  unfold sync_missing_step, bind, gets, data_exists, data_read, data_write,
    modify, ret. simpl.
  rewrite Ed, Eb, bool_decide_eq_true_2 by done. rewrite Ed, Eb, Eg.
  destruct (_ =? _); [|done]. by rewrite Ed.
Qed.

Section Restore.
Context (mf : option Mapping) (key : nat) (a : text) (rg : Range).
Hypothesis Hget : get (default [] mf) key = Some rg.
Hypothesis Hlen : end_ rg - start rg = len a.
Hypothesis Hclean : universal_newlines a = a.

Lemma restore_inv_dir w :
  restore_inv mf key a w → ∃ d, data_dir w = Some d.
Proof.
  intros (_ & [b H1] & _). unfold data_lookup in H1.
  destruct (data_dir w) as [d|]; [by exists d | done].
Qed.

Lemma restore_step_refl w :
  restore_inv mf key a w → mapping w = default [] mf →
  restore_step mf key a w w.
Proof. intros HI Hm. split; [apply grows_refl|done]. Qed.

Lemma restore_step_trans w1 w2 w3 :
  restore_step mf key a w1 w2 → restore_step mf key a w2 w3 →
  restore_step mf key a w1 w3.
Proof.
  intros (G1 & _ & _ & R1) (G2 & I2 & M2 & R2).
  split; [by apply (grows_trans _ w2)|]. split; [done|]. split; [done|].
  auto.
Qed.

Lemma restore_present_step key' p' w :
  restore_inv mf key a w → mapping w = default [] mf →
  data_lookup w (primary_name key') = Some p' →
  ∃ w',
    sync_present_step key' (universal_newlines p') w = (Ok tt, w') ∧
    restore_step mf key a w w' ∧
    data_lookup w' (primary_name key') = Some p'.
Proof.
  intros (Hmf & H1 & Hall & Hprim) Hm Hp'.
  destruct (sync_present_step_spec key' (universal_newlines p') w)
    as (w' & E & _ & F & Mp & _ & _ & L).
  assert (P : ∀ k, data_lookup w' (primary_name k)
                   = data_lookup w (primary_name k)).
  { intros k. rewrite L. destruct (decide _) as [Heq|]; [|done].
    symmetry in Heq. by apply replica_primary_ne in Heq. }
  assert (Hp : ∀ l, replica_name key l = replica_name key' (rep_count w) →
                    universal_newlines p' = a).
  { intros l Heq. apply replica_name_inj in Heq as [<- _].
    destruct Hprim as [Hp|Hp]; [congruence|].
    rewrite Hp in Hp'. by injection Hp' as <-. }
  exists w'. split; [done|]. split; [|by rewrite P].
  split; [|split; [|split]].
  - split; [done|]. intros name. rewrite L.
    destruct (decide _); [by rewrite fmap_is_Some | done].
  - split; [congruence|]. split; [|split].
    + rewrite L. destruct (decide _); [by rewrite fmap_is_Some | done].
    + intros l b. rewrite L. destruct (decide _) as [Heq|]; [|apply Hall].
      destruct (data_lookup w (replica_name key l)); [|done].
      simpl. intros [= <-]. rewrite (Hp l Heq). by apply resync_reads.
    + by rewrite P.
  - congruence.
  - unfold restored. by rewrite P.
Qed.

Lemma restore_present_loop (m : nat) key' p' : ∀ w,
  restore_inv mf key a w → mapping w = default [] mf →
  data_lookup w (primary_name key') = Some p' →
  ∃ w',
    repeat_n m (sync_present_step key' (universal_newlines p')) w
    = (Ok tt, w') ∧
    restore_step mf key a w w'.
Proof.
  induction m as [|m IH]; intros w HI Hm Hp'; simpl.
  - exists w. split; [done | by apply restore_step_refl].
  - destruct (restore_present_step key' p' w HI Hm Hp') as (w1 & E1 & S1 & P1).
    destruct S1 as (G1 & I1 & M1 & R1).
    destruct (IH w1 I1 M1 P1) as (w2 & E2 & S2).
    exists w2. run E1. split; [done|].
    by apply (restore_step_trans _ w1).
Qed.

Section Recursion.
Context (n : nat) (self_call : M unit).
Hypothesis Hrec : restores_below mf key a n self_call.

Lemma restore_missing_step key' w :
  restore_inv mf key a w → mapping w = default [] mf →
  key' ∈ int_keys (default [] mf) →
  few_missing_once n key' w →
  ∃ w',
    sync_missing_step self_call key' w = (Ok tt, w') ∧
    restore_step mf key a w w' ∧
    (key' = key → rep_count w = 1%nat → restored key a w').
Proof.
  intros HI Hm Hk' Hfew.
  destruct (restore_inv_dir w HI) as [d Ed].
  pose proof HI as (Hmf & H1 & Hall & Hprim).
  set (w0 := set_rep_count (S (rep_count w)) w).
  assert (S0 : restore_step mf key a w w0).
  { split; [by split|]. by split; [|split]. }
  destruct (d !! replica_name key' (rep_count w)) as [b|] eqn:Eb.
  - destruct (get_is_Some _ _ Hk') as [rg' Hg'].
    rewrite (sync_missing_step_found self_call key' w d b rg' Ed Eb)
      by (by rewrite Hm).
    destruct (Z.eqb_spec (end_ rg' - start rg') (len (universal_newlines b)))
      as [Hmatch|Hmis].
    + set (w2 := set_data
                   (Some (<[primary_name key' := universal_newlines b]> d)) w).
      assert (L2 : ∀ name, data_lookup w2 name
                           = if decide (name = primary_name key')
                             then Some (universal_newlines b)
                             else data_lookup w name).
      { intros name. unfold data_lookup. simpl. rewrite Ed.
        destruct (decide (name = primary_name key')) as [->|].
        - by rewrite lookup_insert_eq.
        - by rewrite lookup_insert_ne. }
      assert (R2 : ∀ k l, data_lookup w2 (replica_name k l)
                          = data_lookup w (replica_name k l)).
      { intros k l. rewrite L2. destruct (decide _) as [Heq|]; [|done].
        by apply replica_primary_ne in Heq. }
      assert (G2 : grows w w2).
      { split; [done|]. intros name. rewrite L2.
        by destruct (decide _). }
      assert (I2 : restore_inv mf key a w2).
      { split; [done|]. split; [by rewrite R2|]. split.
        - intros l b'. rewrite R2. apply Hall.
        - rewrite L2. destruct (decide _) as [Heq|]; [|done].
          apply primary_name_inj in Heq as ->. right. f_equal.
          apply (Hall (rep_count w)). unfold data_lookup. by rewrite Ed. }
      destruct (Hrec w2 I2) as (w3 & E3 & S3 & Rd3).
      { apply Hfew; [done|]. rewrite L2. by destruct (decide _). }
      destruct S3 as (G3 & I3 & M3 & _).
      exists (set_rep_count (S (rep_count w3)) w3). split.
      { unfold bind. by rewrite E3. }
      split; [|done].
      split; [by apply (grows_trans _ w2)|]. split; [done|]. by split.
    + exists w0. split; [done|]. split; [done|].
      intros -> Hr. exfalso. apply Hmis.
      rewrite Hr in Eb.
      assert (Hb : universal_newlines b = a).
      { apply (Hall 1%nat). unfold data_lookup. by rewrite Ed. }
      rewrite Hb. rewrite Hget in Hg'. by injection Hg' as <-.
  - rewrite (sync_missing_step_absent self_call key' w d Ed Eb).
    exists w0. split; [done|]. split; [done|].
    intros -> Hr. rewrite Hr in Eb. destruct H1 as [b H1].
    unfold data_lookup in H1. rewrite Ed, Eb in H1. done.
Qed.

Lemma restore_missing_loop (m : nat) key' : ∀ w,
  restore_inv mf key a w → mapping w = default [] mf →
  key' ∈ int_keys (default [] mf) →
  few_missing_once n key' w →
  ∃ w',
    repeat_n m (sync_missing_step self_call key') w = (Ok tt, w') ∧
    restore_step mf key a w w'.
Proof.
  induction m as [|m IH]; intros w HI Hm Hk' Hfew; simpl.
  - exists w. split; [done | by apply restore_step_refl].
  - destruct (restore_missing_step key' w HI Hm Hk' Hfew) as (w1 & E1 & S1 & _).
    pose proof S1 as (G1 & I1 & M1 & _).
    destruct (IH w1 I1 M1 Hk') as (w2 & E2 & S2).
    { by apply (few_missing_grows _ _ w). }
    exists w2. run E1. split; [done|].
    by apply (restore_step_trans _ w1).
Qed.

(** One round of the loop over the keys. *)
Lemma restore_round (max_files key' : nat) w :
  restore_inv mf key a w → mapping w = default [] mf →
  key' ∈ int_keys (default [] mf) →
  (missing_primaries w ≤ n)%nat →
  ∃ w',
    (modify (set_rep_count 1%nat) ;;;
     let* e := data_exists (primary_name key') in
     if e then
       let* a := data_read (primary_name key') in
       repeat_n (S max_files) (sync_present_step key' a)
     else
       repeat_n (S max_files) (sync_missing_step self_call key')) w
    = (Ok tt, w') ∧
    restore_step mf key a w w' ∧
    (key' = key → restored key a w').
Proof.
  intros HI Hm Hk' Hn.
  set (w1 := set_rep_count 1%nat w).
  assert (I1 : restore_inv mf key a w1) by exact HI.
  assert (S01 : restore_step mf key a w w1).
  { split; [by split|]. by split; [|split]. }
  destruct (restore_inv_dir w HI) as [d Ed].
  unfold bind at 1, modify at 1. fold w1.
  unfold bind at 1, data_exists at 1, gets at 1.
  change (data_dir w1) with (data_dir w). rewrite Ed.
  destruct (d !! primary_name key') as [a'|] eqn:Ea.
  - rewrite bool_decide_eq_true_2 by done.
    unfold bind at 1, data_read at 1.
    change (data_dir w1) with (data_dir w). rewrite Ed, Ea.
    assert (Ha1 : data_lookup w1 (primary_name key') = Some a').
    { unfold data_lookup. simpl. by rewrite Ed. }
    destruct (restore_present_loop (S max_files) key' a' w1 I1 Hm Ha1)
      as (w2 & E2 & S2).
    exists w2. split; [done|]. split; [by apply (restore_step_trans _ w1)|].
    intros ->. destruct S2 as (_ & _ & _ & R2). apply R2.
    unfold restored. destruct HI as (_ & _ & _ & [Hp|Hp]); [|done].
    unfold data_lookup in Hp. rewrite Ed in Hp. congruence.
  - rewrite bool_decide_eq_false_2 by (by intros [? ?]).
    assert (Hfew : few_missing_once n key' w1).
    { intros w' G' Hs.
      enough (missing_primaries w' < missing_primaries w1)%nat
        by (change (missing_primaries w1) with (missing_primaries w) in *; lia).
      apply (grows_missing_lt _ _ key'); [done| | |done].
      - unfold persisted_keys. destruct I1 as (-> & _).
        by rewrite sorted_keys_perm.
      - unfold data_lookup. simpl. rewrite Ed, Ea. by intros [? ?]. }
    cbn [repeat_n].
    destruct (restore_missing_step key' w1 I1 Hm Hk' Hfew)
      as (w2 & E2 & S2 & R2).
    pose proof S2 as (G2 & I2 & M2 & _).
    destruct (restore_missing_loop max_files key' w2 I2 M2 Hk')
      as (w3 & E3 & S3).
    { by apply (few_missing_grows _ _ w1). }
    exists w3. run E2. split; [done|]. split.
    + apply (restore_step_trans _ w1); [done|].
      by apply (restore_step_trans _ w2).
    + intros ->. destruct S3 as (_ & _ & _ & R3). apply R3. by apply R2.
Qed.

Lemma restore_rounds (max_files : nat) (keys : list nat) : ∀ w,
  (∀ k, k ∈ keys → k ∈ int_keys (default [] mf)) →
  restore_inv mf key a w → mapping w = default [] mf →
  (missing_primaries w ≤ n)%nat →
  ∃ w',
    for_each keys (λ key',
      modify (set_rep_count 1%nat) ;;;
      let* e := data_exists (primary_name key') in
      if e then
        let* a := data_read (primary_name key') in
        repeat_n (S max_files) (sync_present_step key' a)
      else
        repeat_n (S max_files) (sync_missing_step self_call key')) w
    = (Ok tt, w') ∧
    restore_step mf key a w w' ∧
    (key ∈ keys → restored key a w').
Proof.
  induction keys as [|key' keys IH]; intros w Hsub HI Hm Hn.
  - exists w. split; [done|]. split; [by apply restore_step_refl|].
    intros H. by apply elem_of_nil in H.
  - destruct (restore_round max_files key' w HI Hm) as (w1 & E1 & S1 & R1);
      [apply Hsub; by left | done |].
    pose proof S1 as (G1 & I1 & M1 & _).
    destruct (IH w1) as (w2 & E2 & S2 & R2); [|done..| |].
    { intros k Hk. apply Hsub. by right. }
    { pose proof (grows_missing_le _ _ G1). lia. }
    exists w2. split; [cbn [for_each]; by run E1|].
    split; [by apply (restore_step_trans _ w1)|].
    intros Hin. apply elem_of_cons in Hin as [<-|Hin]; [|by apply R2].
    destruct S2 as (_ & _ & _ & K2). by apply K2, R1.
Qed.

Lemma restore_sync_body w :
  key ∈ int_keys (default [] mf) →
  restore_inv mf key a w → (missing_primaries w ≤ n)%nat →
  ∃ w',
    sync_body self_call w = (Ok tt, w') ∧
    restore_step mf key a w w' ∧ restored key a w'.
Proof.
  intros Hkey HI Hn.
  pose proof HI as (Hmf & _).
  destruct (restore_inv_dir w HI) as [d Ed].
  set (w1 := set_mapping (default [] mf) w).
  set (mx := length (filter (λ name, isfile w name = true) (elements (dom d)))).
  destruct (restore_rounds mx (sorted_keys (default [] mf)) w1)
    as (w2 & E2 & S2 & R2); [|done..|].
  { intros k Hk. by rewrite sorted_keys_perm in Hk. }
  exists w2. split.
  { unfold sync_body.
    unfold bind at 1, load_map at 1, gets at 1. rewrite Hmf.
    unfold bind at 1, modify at 1. fold w1.
    unfold bind at 1, count_files at 1.
    change (data_dir w1) with (data_dir w). rewrite Ed. exact E2. }
  split.
  - destruct S2 as (G2 & I2 & M2 & K2).
    split; [|split; [done|split; [done|]]].
    + apply (grows_trans _ w1); [by split | done].
    + intros Hr. by apply K2.
  - apply R2. by rewrite sorted_keys_perm.
Qed.

End Recursion.

Lemma sync_replication_restores (fuel : nat) :
  key ∈ int_keys (default [] mf) →
  restores_below mf key a fuel (sync_replication fuel).
Proof.
  intros Hkey. induction fuel as [|fuel IH]; intros w HI Hn; [lia|].
  cbn [sync_replication].
  apply (restore_sync_body fuel); [done..|lia].
Qed.

End Restore.

(** X13: the repair the sync pass is written for. Let shard [key] of the
    index have the range [rg] and no primary; let its level-1 replica hold
    [r], read in text mode as [a], with [len(a) = end - start]; let every
    replica of [key] that exists read as [a] (as when it has a single
    replica). With fuel above the number of missing primaries the pass
    returns, the primary of [key] holds [a], the text as it was read, the
    index is unchanged, and no file has been removed. *)
Theorem sync_replication_restores_from_level_one
    (fuel : nat) (w : World) (key : nat) (r : text) (rg : Range) :
  get (default [] (mapfile w)) key = Some rg →
  end_ rg - start rg = len (universal_newlines r) →
  key ∈ int_keys (default [] (mapfile w)) →
  data_lookup w (primary_name key) = None →
  data_lookup w (replica_name key 1) = Some r →
  (∀ l b, data_lookup w (replica_name key l) = Some b →
          universal_newlines b = universal_newlines r) →
  (missing_primaries w < fuel)%nat →
  ∃ w',
    sync_replication fuel w = (Ok tt, w') ∧
    data_lookup w' (primary_name key) = Some (universal_newlines r) ∧
    mapfile w' = mapfile w ∧
    ∀ name, is_Some (data_lookup w name) → is_Some (data_lookup w' name).
Proof.
  intros Hget Hlen Hkey Hmiss H1 Hall Hfuel.
  destruct (sync_replication_restores (mapfile w) key (universal_newlines r)
              rg Hget Hlen (universal_newlines_idem r) fuel Hkey w)
    as (w' & E & ((F & G) & _) & R); [|done|].
  { split; [done|]. split; [by eexists|]. split; [done|]. by left. }
  exists w'. by repeat split.
Qed.

Lemma sync_replication_restores_from_level_one_witness :
  ∃ w',
    sync_replication 2 lost_primary_level_one = (Ok tt, w') ∧
    data_lookup w' (primary_name 0) = Some (T "AB").
Proof.
  destruct (sync_replication_restores_from_level_one
              2 lost_primary_level_one 0 (T "AB") (mkRange 0 2))
    as (w' & E & R & _).
  - by vm_compute.
  - by vm_compute.
  - vm_compute. by left.
  - by vm_compute.
  - by vm_compute.
  - intros l b Hb.
    assert (HF : map_Forall
                   (λ _ x, universal_newlines x = universal_newlines (T "AB"))
                   (<[ "0-1.txt" := T "AB" ]> {[ "0-2.txt" := T "AB" ]}
                    : gmap string text)).
    { apply map_Forall_insert_2; [done|]. by apply map_Forall_singleton. }
    exact (HF (replica_name 0 l) b Hb).
  - vm_compute. lia.
  - exists w'. split; [exact E | exact R].
Defined.

(** ** Running the sync pass twice *)

Lemma count_files_same (w w1 : World) (d d1 : gmap string text) :
  mapfile w1 = mapfile w → cwd w1 = cwd w →
  data_dir w = Some d → data_dir w1 = Some d1 → dom d1 = dom d →
  fst (count_files w1) = fst (count_files w).
Proof.
  intros F C Hd Hd1 Hdom. unfold count_files, isfile.
  by rewrite Hd, Hd1, F, C, Hdom.
Qed.

(** X15: on a topology without loss a second sync pass finds nothing to do.
    When [data/] exists and every persisted shard has its primary, two passes
    in a row both return, and the second leaves every file of [data/] as the
    first left it. *)
Theorem sync_replication_twice (fuel fuel' : nat) (w : World) :
  is_Some (data_dir w) →
  (∀ k, k ∈ persisted_keys w → is_Some (data_lookup w (primary_name k))) →
  ∃ w1 w2,
    sync_replication (S fuel) w = (Ok tt, w1) ∧
    sync_replication (S fuel') w1 = (Ok tt, w2) ∧
    ∀ name, data_lookup w2 name = data_lookup w1 name.
Proof.
  intros Hd Hall.
  destruct (sync_all_present_spec fuel w Hd Hall)
    as (mx & w1 & Ec & E1 & F1 & _ & C1 & D1 & Sf1 & P1 & K1 & _ & _).
  assert (Hpk : persisted_keys w1 = persisted_keys w).
  { unfold persisted_keys. by rewrite F1. }
  destruct (sync_all_present_spec fuel' w1 D1)
    as (mx' & w2 & Ec' & E2 & _ & _ & _ & _ & Sf2 & P2 & K2 & _ & U2).
  { intros k Hk. rewrite P1. apply Hall. by rewrite <- Hpk. }
  assert (mx' = mx) as ->.
  { destruct Hd as [d Hd]. destruct D1 as [d1 Hd1].
    assert (Hdom : dom d1 = dom d).
    { apply leibniz_equiv, set_equiv. intros name. rewrite !elem_of_dom.
      specialize (Sf1 name). unfold data_lookup in Sf1.
      by rewrite Hd, Hd1 in Sf1. }
    pose proof (count_files_same w w1 d d1 F1 C1 Hd Hd1 Hdom) as Hc.
    rewrite Ec, Ec' in Hc. simpl in Hc. congruence. }
  exists w1, w2. split; [done|]. split; [done|]. intros name.
  destruct (decide (name ∈ persisted_keys w ≫=
                      (λ k, replica_name k <$> seq 1 (S mx)))) as [Hyes|Hno].
  - apply list_elem_of_bind in Hyes as (k & Hname & Hk).
    apply list_elem_of_fmap in Hname as (l & -> & Hl).
    apply elem_of_seq in Hl.
    destruct (Hall k Hk) as [p Hp].
    assert (Hp1 : data_lookup w1 (primary_name k) = Some p) by (by rewrite P1).
    assert (Hk1 : k ∈ persisted_keys w1) by (by rewrite Hpk).
    rewrite (K2 k l p Hk1 ltac:(lia) Hp1), (K1 k l p Hk ltac:(lia) Hp).
    destruct (data_lookup w (replica_name k l)); [|done].
    simpl. f_equal. apply resync_idem, universal_newlines_idem.
  - apply U2. intros k l Hk Hl ->. apply Hno.
    apply list_elem_of_bind. exists k. split; [|by rewrite <- Hpk].
    apply list_elem_of_fmap. exists l. split; [done|].
    apply elem_of_seq. lia.
Qed.

Lemma sync_replication_twice_witness :
  ∃ w1 w2,
    sync_replication 1 drifted_replica = (Ok tt, w1) ∧
    sync_replication 1 w1 = (Ok tt, w2) ∧
    ∀ name, data_lookup w2 name = data_lookup w1 name.
Proof.
  apply (sync_replication_twice 0 0 drifted_replica).
  - vm_compute. eauto.
  - intros k Hk. vm_compute in Hk.
    apply list_elem_of_singleton in Hk as ->. vm_compute. eauto.
Defined.

(** ** The probe of [add_replication] stops *)

Lemma bind_ends {A B} (m : M A) (k : A → M B) (w : World) :
  fst (m w) ≠ OutOfFuel →
  (∀ a w', fst (k a w') ≠ OutOfFuel) →
  fst (bind m k w) ≠ OutOfFuel.
Proof.
  intros Hm Hk. unfold bind.
  destruct (m w) as [[a|e|] w']; simpl in *; [apply Hk | done | done].
Qed.

Lemma for_each_ends {A} (l : list A) (body : A → M unit) :
  (∀ x w, fst (body x w) ≠ OutOfFuel) →
  ∀ w, fst (for_each l body w) ≠ OutOfFuel.
Proof.
  intros Hb. induction l as [|x l IH]; intros w; simpl; [done|].
  apply bind_ends; [apply Hb | intros _ w'; apply IH].
Qed.

Lemma data_read_ends name w : fst (data_read name w) ≠ OutOfFuel.
Proof.
  unfold data_read. destruct (data_dir w) as [d|]; [|done].
  by destruct (d !! name).
Qed.

Lemma data_write_ends name s w : fst (data_write name s w) ≠ OutOfFuel.
Proof. unfold data_write. by destruct (data_dir w). Qed.

(** X14: [add_replication] always ends, with a value or an exception: its
    loop [while os.path.exists(...)] climbs over distinct entries of [data/]
    and stops within as many rounds as the directory has entries, plus
    one. *)
Theorem add_replication_always_ends (w : World) :
  fst (add_replication w) ≠ OutOfFuel.
Proof.
  unfold add_replication.
  unfold bind at 1, load_map at 1, gets at 1.
  unfold bind at 1, modify at 1.
  set (w1 := set_mapping (default [] (mapfile w)) w).
  destruct (sorted_keys (default [] (mapfile w))) as [|k0 rest]; [done|].
  unfold bind at 1, first_key at 1, ret.
  unfold bind at 1, gets at 1.
  destruct (probe_spec k0 w1) as (L & Ep & _).
  change (fst (bind (bind (data_exists (replica_name k0 (rep_count w1)))
                      (λ e, if e then let* f := probe_fuel in probe_levels f k0
                            else ret tt))
                 (λ _, for_each (k0 :: rest) (λ key,
                    let* a := data_read (primary_name key) in
                    let* r := gets rep_count in
                    data_write (replica_name key r) a)) w1) ≠ OutOfFuel).
  apply bind_ends; [by rewrite Ep|]. intros _ w2.
  apply for_each_ends. intros key w3.
  apply bind_ends; [apply data_read_ends|]. intros a w4.
  apply bind_ends; [done|]. intros r w5. apply data_write_ends.
Qed.

(** ** A second process after a build *)

(** X16: a build is a one-time operation across processes. After a build
    with a positive count from an empty mapping, a handler constructed anew
    on the disk the build left loads a non-empty mapping, so its
    [build_shards] refuses, whatever the count and the corpus, and changes
    nothing. *)
Theorem build_shards_refused_after_restart
    (count count' : Z) (corpus corpus' : text) (w : World) :
  0 < count → mapping w = [] →
  ∃ w' w'',
    build_shards count corpus w = (Ok None, w') ∧
    __init__ w' = (Ok tt, w'') ∧
    build_shards count' corpus' w'' = (Ok (Some already_sharded), w'').
Proof.
  intros Hc Hm.
  destruct (build_shards_spec count corpus w Hc Hm)
    as (shards & w' & E & _ & _ & _ & _ & K & F & _).
  exists w', (snd (__init__ w')). split; [done|]. split; [done|].
  unfold build_shards, bind, gets.
  rewrite bool_decide_eq_true_2; [done|].
  unfold __init__, bind, load_map, gets, modify. simpl. rewrite F. simpl.
  intros Hnil. rewrite Hnil in K. simpl in K.
  assert (Z.to_nat count ≠ 0%nat) by lia.
  destruct (Z.to_nat count); [done | discriminate K].
Qed.

Lemma build_shards_refused_after_restart_witness :
  ∃ w' w'',
    build_shards 2 (T "ABCD") fresh_world = (Ok None, w') ∧
    __init__ w' = (Ok tt, w'') ∧
    build_shards 3 (T "XYZ") w'' = (Ok (Some already_sharded), w'').
Proof.
  apply (build_shards_refused_after_restart 2 3 (T "ABCD") (T "XYZ") fresh_world).
  - lia.
  - reflexivity.
Defined.
